(** * backupify-mysql: dump, archive and upload of MySQL databases

    A shallow embedding of [cmd/backupify-mysql/main.go].  The program is a
    straight-line batch job around three collaborators (the [mysqldump]
    process, the local file system with the tar and gzip writers, and an
    FTP client).  Every call into a collaborator is a step of a small state
    monad over a [World]; the result of the call is chosen by an oracle, the
    [Env], so that each error the program inspects, and each one it drops,
    can happen. *)

From Stdlib Require Import Ascii String DecimalString DecimalNat.
From stdpp Require Import gmap strings list fin_maps.

Local Open Scope string_scope.

(** * The program

    Definitions first: the data and the program, then what the claims
    are stated with.  The proofs follow in the second part. *)

(** ** Byte strings

    Go strings are byte sequences; [string] is a sequence of 8-bit [ascii]. *)

Definition slash : ascii := "/"%char.

Definition isSep (c : ascii) : bool := bool_decide (c = slash).

Fixpoint hasSep (s : string) : bool :=
  match s with
  | EmptyString => false
  | String c s' => isSep c || hasSep s'
  end.

(** [contains s sub]: [strings.Contains]. *)
Fixpoint contains (s sub : string) : bool :=
  String.prefix sub s ||
  match s with
  | EmptyString => false
  | String _ s' => contains s' sub
  end.

(** [fmt.Errorf("<ctx>: %w", err)] as far as the message goes. *)
Definition wrap (ctx : string) (err : string) : string := ctx +:+ ": " +:+ err.

(** ** [path/filepath] on a Unix host

    [Clean], [Join] and [Base] after the documentation of Go's
    [path/filepath]: the separator is the slash and there is no volume
    name. *)

Module filepath.

(** [strings.Split(path, "/")]: the elements between separators. *)
Fixpoint splitSep (s : string) : list string :=
match s with
| EmptyString => [EmptyString]
| String c s' =>
    if isSep c then EmptyString :: splitSep s'
    else match splitSep s' with
         | [] => [String c EmptyString]
         | x :: xs => String c x :: xs
         end
end.

Definition rooted (path : string) : bool :=
match path with
| String c _ => isSep c
| EmptyString => false
end.

(** One element of [Clean]'s scan; [stack] holds the kept elements, the
  last one first. *)
Definition cleanStep (root : bool) (stack : list string) (e : string)
: list string :=
if bool_decide (e = EmptyString) || bool_decide (e = ".") then stack
else if bool_decide (e = "..") then
  match stack with
  | top :: rest => if bool_decide (top = "..") then e :: stack else rest
  | [] => if root then [] else [e]
  end
else e :: stack.

Definition Clean (path : string) : string :=
let kept := rev (fold_left (cleanStep (rooted path)) (splitSep path) []) in
let body := String.concat "/" kept in
if rooted path then "/" +:+ body
else if bool_decide (body = EmptyString) then "." else body.

(** Empty elements before the first non-empty one are dropped; the rest
  is joined with the separator and cleaned. *)
Fixpoint Join (elem : list string) : string :=
match elem with
| [] => EmptyString
| e :: rest =>
    if bool_decide (e = EmptyString) then Join rest
    else Clean (String.concat "/" elem)
end.

Fixpoint stripTrailingSep (s : string) : string :=
match s with
| EmptyString => EmptyString
| String c s' =>
    match stripTrailingSep s' with
    | EmptyString => if isSep c then EmptyString else String c EmptyString
    | r => String c r
    end
end.

(** The text after the last separator, all of [s] when it has none. *)
Fixpoint afterLastSep (s : string) : string :=
match s with
| EmptyString => EmptyString
| String c s' =>
    if hasSep s' then afterLastSep s'
    else if isSep c then s' else s
end.

Definition Base (path : string) : string :=
if bool_decide (path = EmptyString) then "."
else
  let p := afterLastSep (stripTrailingSep path) in
  if bool_decide (p = EmptyString) then "/" else p.

(** An element that [Clean] keeps as it is. *)
Definition plain (e : string) : Prop :=
hasSep e = false /\ e <> EmptyString /\ e <> "." /\ e <> "..".

End filepath.

(** ** Data of the program *)

Record Config := {
  MySQLHost : string;
  MySQLUser : string;
  MySQLPassword : string;
  Databases : list string;
  BackupDirectory : string;
  FTPHost : string;
  FTPUser : string;
  FTPPassword : string;
  FTPDirectory : string;
}.

(** The zero value of [Config]: what [var config Config] holds. *)
Definition zeroConfig : Config :=
  {| MySQLHost := EmptyString; MySQLUser := EmptyString;
     MySQLPassword := EmptyString; Databases := [];
     BackupDirectory := EmptyString; FTPHost := EmptyString;
     FTPUser := EmptyString; FTPPassword := EmptyString;
     FTPDirectory := EmptyString |}.

(** A Go [error] is kept as its message; [nil] is [None]. *)
Definition error : Type := string.

Inductive result (A : Type) : Type :=
| Ok (a : A)
| Err (e : error).

Arguments Ok {A} a.

Arguments Err {A} e.

(** The local wall-clock reading of [time.Now()], by its calendar fields. *)
Record Time := {
  Year : nat; Month : nat; Day : nat;
  Hour : nat; Minute : nat; Second : nat;
}.

(** What [os.Stat] reports and what the tar header keeps of it.  Mode,
    owner and modification time do not bear on what follows and are left
    out. *)
Record FileInfo := { InfoName : string; InfoSize : nat }.

Record Header := { Name : string; Size : nat }.

Record TarEntry := { Hdr : Header; Data : string }.

(** ** The collaborators *)

(** Calls that leave the process. *)
Inductive Call : Type :=
| OsOpen (path : string)
| OsCreate (path : string)
| OsMkdirAll (path : string)
| OsStat (path : string)
| FileClose (path : string)
| JsonDecode (path : string)
| CmdRun (argv : list string) (stdout : string)
| TarFileInfoHeader (name : string)
| TarWriteHeader (name : string)
| IoCopy (path : string)
| TarClose
| GzipClose
| FtpDial (host : string)
| FtpLogin (user password : string)
| FtpStor (remote local : string)
| FtpQuit.

(** What a run does that can be seen from outside, in order. *)
Inductive Event : Type :=
| Called (c : Call) (r : option error)
| Now (t : Time)
| Printed (line : string)
| Logged (line : string).

(** The environment decides every outcome the program does not: [fault n c]
    is the error, if any, of call [c] made as the [n]-th step; the other
    fields are the decoded configuration, the bytes the dump process
    writes, the clock, and what is left in a file whose writers did not
    all finish. *)
Record Env := {
  fault : nat -> Call -> option error;
  decoded : nat -> string -> Config;
  dumpOutput : nat -> list string -> string;
  wallClock : nat -> Time;
  torn : nat -> string;
}.

(** Local files by path, and the number of steps taken so far. *)
Record World := {
  fs : gmap string string;
  tick : nat;
}.

Definition setFs (f : gmap string string -> gmap string string) (w : World)
  : World :=
  {| fs := f (fs w); tick := tick w |}.

(** ** A state monad that records events *)

Definition M (A : Type) : Type := World -> A * World * list Event.

Definition ret {A : Type} (a : A) : M A := fun w => (a, w, []).

Definition bind {A B : Type} (m : M A) (k : A -> M B) : M B :=
  fun w =>
    let '(a, w1, t1) := m w in
    let '(b, w2, t2) := k a w1 in
    (b, w2, (t1 ++ t2)%list).

Notation "x <- m ;; k" := (bind m (fun x => k))
  (at level 100, m at next level, right associativity).

Notation "m ;;; k" := (bind m (fun _ => k))
  (at level 100, right associativity).

Definition emit (e : Event) : M unit := fun w => (tt, w, [e]).

Definition modify (f : gmap string string -> gmap string string) : M unit :=
  fun w => (tt, setFs f w, []).

Definition lookupFile (path : string) : M (option string) :=
  fun w => (fs w !! path, w, []).

(** [defer d] before [body]: [d] runs when [body] returns, whatever it
    returns, and its own result is dropped. *)
Definition defer {A B : Type} (d : M B) (body : M A) : M A :=
  a <- body ;; d ;;; ret a.

Definition valueOf {A : Type} (x : A * World * list Event) : A := x.1.1.

Definition worldOf {A : Type} (x : A * World * list Event) : World := x.1.2.

Definition traceOf {A : Type} (x : A * World * list Event) : list Event := x.2.

Definition newline : string := String "010"%char EmptyString.

(** ** [time.Time.Format("20060102_150405")]

    The layout is a four-digit year, two-digit month and day, an
    underscore, and two-digit hour, minute and second, each printed by the
    library's [appendInt]: decimal, padded with zeros to the width. *)

Definition decimal (n : nat) : string := NilEmpty.string_of_uint (Nat.to_uint n).

Fixpoint zeros (k : nat) : string :=
  match k with
  | O => EmptyString
  | S k' => String "0"%char (zeros k')
  end.

Definition appendInt (x width : nat) : string :=
  zeros (width - String.length (decimal x)) +:+ decimal x.

Definition Format (t : Time) : string :=
  appendInt (Year t) 4 +:+ appendInt (Month t) 2 +:+ appendInt (Day t) 2 +:+
  "_" +:+
  appendInt (Hour t) 2 +:+ appendInt (Minute t) 2 +:+ appendInt (Second t) 2.

(** ** The functions of [main.go] *)

Section program.

Variable env : Env.

(** The bytes of a gzip-compressed tar stream holding the given
  entries: what the stack of [tar.Writer] over [gzip.Writer] leaves in
  the file once all of it is closed. *)
Variable targz : list TarEntry -> string.

(** One call out of the process.  [natural] is the error the call has by
  the state of the files alone (a missing file); the environment may
  make it fail otherwise.  The call and the result the program gets
  are recorded, and a step is counted. *)
Definition performOr (c : Call) (natural : option error) : M (option error) :=
fun w =>
  let r := match fault env (tick w) c with
           | Some e => Some e
           | None => natural
           end in
  (r, {| fs := fs w; tick := S (tick w) |}, [Called c r]).

Definition perform (c : Call) : M (option error) := performOr c None.

Definition now : M Time :=
fun w =>
  let t := wallClock env (tick w) in
  (t, {| fs := fs w; tick := S (tick w) |}, [Now t]).

Definition stepNo : M nat := fun w => (tick w, w, []).

Definition fmt_Printf (line : string) : M unit := emit (Printed line).

Definition log_Printf (line : string) : M unit := emit (Logged line).

(** [log.Fatalf]: the line is logged and the process exits with status 1. *)
Definition log_Fatalf (line : string) : M nat := emit (Logged line) ;;; ret 1.

Definition noSuchFile (op path : string) : error :=
op +:+ " " +:+ path +:+ ": no such file or directory".

Definition missing (op path : string) (content : option string) : option error :=
match content with
| Some _ => None
| None => Some (noSuchFile op path)
end.

(** [os.Open]: the handle is stood for by the path. *)
Definition os_Open (path : string) : M (result string) :=
content <- lookupFile path ;;
err <- performOr (OsOpen path) (missing "open" path content) ;;
match err with
| Some e => ret (Err e)
| None => ret (Ok path)
end.

(** [os.Create]: the file exists and is empty afterwards. *)
Definition os_Create (path : string) : M (option error) :=
err <- perform (OsCreate path) ;;
match err with
| Some e => ret (Some e)
| None => modify (insert path EmptyString) ;;; ret None
end.

Definition os_Stat (path : string) : M (result FileInfo) :=
content <- lookupFile path ;;
err <- performOr (OsStat path) (missing "stat" path content) ;;
match err with
| Some e => ret (Err e)
| None =>
    ret (Ok {| InfoName := filepath.Base path;
               InfoSize := String.length (default EmptyString content) |})
end.

(** [cmd.Run] with [cmd.Stdout] set to the open file at [stdout]: what
  the process wrote is in the file whether or not it ended well. *)
Definition cmd_Run (argv : list string) (stdout : string) : M (option error) :=
n <- stepNo ;;
err <- perform (CmdRun argv stdout) ;;
modify (insert stdout (dumpOutput env n argv)) ;;;
ret err.

Definition tar_FileInfoHeader (info : FileInfo) : M (result Header) :=
err <- perform (TarFileInfoHeader (InfoName info)) ;;
match err with
| Some e => ret (Err e)
| None => ret (Ok {| Name := InfoName info; Size := InfoSize info |})
end.

(** [io.Copy(tarWriter, file)]: the bytes read from the file. *)
Definition io_Copy (file : string) : M (result string) :=
content <- lookupFile file ;;
err <- perform (IoCopy file) ;;
match err with
| Some e => ret (Err e)
| None => ret (Ok (default EmptyString content))
end.

Definition loadConfig (filename : string) : M (Config * option error) :=
r <- os_Open filename ;;
match r with
| Err e => ret (zeroConfig, Some e)
| Ok file =>
    defer (perform (FileClose file))
      (content <- lookupFile file ;;
       n <- stepNo ;;
       err <- perform (JsonDecode file) ;;
       ret (decoded env n (default EmptyString content), err))
end.

Definition mysqldumpArgv (config : Config) (database : string) : list string :=
["mysqldump"; "-h"; MySQLHost config; "-u"; MySQLUser config;
 "-p" +:+ MySQLPassword config; database].

Definition backupDatabase (config : Config) (database outputFile : string)
: M (option error) :=
let cmd := mysqldumpArgv config database in
err <- os_Create outputFile ;;
match err with
| Some e => ret (Some (wrap "failed to create database copy file" e))
| None =>
    defer (perform (FileClose outputFile))
      (err <- cmd_Run cmd outputFile ;;
       match err with
       | Some e => ret (Some (wrap "failed to execute mysqldump" e))
       | None => ret None
       end)
end.

(** The loop of [archiveFiles]: [written] are the entries completed so
  far, [opened] the input files whose close is deferred, the last one
  first. *)
Fixpoint archiveLoop (files : list string) (written : list TarEntry)
(opened : list string)
: M (option error * list TarEntry * list string) :=
match files with
| [] => ret (None, written, opened)
| file :: rest =>
    r <- os_Stat file ;;
    match r with
    | Err e =>
        ret (Some (wrap ("failed to get file information " +:+ file) e),
             written, opened)
    | Ok info =>
        r <- tar_FileInfoHeader info ;;
        match r with
        | Err e =>
            ret (Some (wrap ("failed to create file header " +:+ file) e),
                 written, opened)
        | Ok header =>
            let header := {| Name := filepath.Base file; Size := Size header |} in
            err <- perform (TarWriteHeader (Name header)) ;;
            match err with
            | Some e =>
                ret (Some (wrap "failed to write file header into archive" e),
                     written, opened)
            | None =>
                r <- os_Open file ;;
                match r with
                | Err e =>
                    ret (Some (wrap ("failed to open file " +:+ file) e),
                         written, opened)
                | Ok fileContent =>
                    r <- io_Copy fileContent ;;
                    match r with
                    | Err e =>
                        ret (Some (wrap ("failed to write file " +:+ file
                                         +:+ " into archive") e),
                             written, fileContent :: opened)
                    | Ok data =>
                        archiveLoop rest
                          (written ++ [{| Hdr := header; Data := data |}])
                          (fileContent :: opened)
                    end
                end
            end
        end
    end
end.

Fixpoint closeAll (opened : list string) : M unit :=
match opened with
| [] => ret tt
| file :: rest => perform (FileClose file) ;;; closeAll rest
end.

Definition allNone (rs : list (option error)) : bool :=
forallb (fun r => bool_decide (r = None)) rs.

(** The deferred calls of [archiveFiles], the last deferred first: the
  input files, the tar writer, the gzip writer, the archive file.
  Their results are dropped.  The archive file holds the whole stream
  when the loop ended well and every writer closed; otherwise it holds
  what the environment says is left. *)
Definition archiveFiles (files : list string) (archivePath : string)
: M (option error) :=
err <- os_Create archivePath ;;
match err with
| Some e => ret (Some (wrap "failed to create archive" e))
| None =>
    out <- archiveLoop files [] [] ;;
    let '(err, written, opened) := out in
    closeAll opened ;;;
    n <- stepNo ;;
    c1 <- perform TarClose ;;
    c2 <- perform GzipClose ;;
    c3 <- perform (FileClose archivePath) ;;
    modify (insert archivePath
              (if allNone [err; c1; c2; c3] then targz written
               else torn env n)) ;;;
    ret err
end.

Definition uploadToFTP (config : Config) (localFile : string) : M (option error) :=
err <- perform (FtpDial (FTPHost config)) ;;
match err with
| Some e => ret (Some (wrap "failed to connect to ftp server" e))
| None =>
    defer (perform FtpQuit)
      (err <- perform (FtpLogin (FTPUser config) (FTPPassword config)) ;;
       match err with
       | Some e => ret (Some (wrap "failed to auth on ftp server" e))
       | None =>
           r <- os_Open localFile ;;
           match r with
           | Err e => ret (Some (wrap "failed to open local file" e))
           | Ok file =>
               defer (perform (FileClose file))
                 (let remotePath :=
                    filepath.Join [FTPDirectory config; filepath.Base localFile] in
                  err <- perform (FtpStor remotePath file) ;;
                  match err with
                  | Some e => ret (Some (wrap "failed to upload file" e))
                  | None => ret None
                  end)
           end
       end)
end.

Definition backupFileOf (config : Config) (db : string) : string :=
filepath.Join [BackupDirectory config; db +:+ ".sql"].

Definition archivePathOf (config : Config) (t : Time) : string :=
filepath.Join [BackupDirectory config; "backup_" +:+ Format t +:+ ".tar.gz"].

(** The loop of [main] over [config.Databases]. *)
Fixpoint dumpLoop (config : Config) (dbs : list string) (backupFiles : list string)
: M (list string) :=
match dbs with
| [] => ret backupFiles
| db :: rest =>
    let backupFile := backupFileOf config db in
    fmt_Printf ("creating database backup " +:+ db +:+ " -> " +:+ backupFile
                +:+ newline) ;;;
    err <- backupDatabase config db backupFile ;;
    match err with
    | Some e =>
        log_Printf ("failed to backup database " +:+ db +:+ ": " +:+ e) ;;;
        dumpLoop config rest backupFiles
    | None => dumpLoop config rest (backupFiles ++ [backupFile])
    end
end.

(** [main], returning the exit status. *)
Definition main : M nat :=
loaded <- loadConfig "config.json" ;;
let '(config, err) := loaded in
match err with
| Some e => log_Fatalf ("failed to load config: " +:+ e)
| None =>
    err <- perform (OsMkdirAll (BackupDirectory config)) ;;
    match err with
    | Some e => log_Fatalf ("failed to create directory for backups: " +:+ e)
    | None =>
        backupFiles <- dumpLoop config (Databases config) [] ;;
        t <- now ;;
        let archivePath := archivePathOf config t in
        fmt_Printf ("creating archive -> " +:+ archivePath +:+ newline) ;;;
        err <- archiveFiles backupFiles archivePath ;;
        match err with
        | Some e => log_Fatalf ("failed to archive: " +:+ e)
        | None =>
            fmt_Printf ("uploading -> " +:+ archivePath +:+ newline) ;;;
            err <- uploadToFTP config archivePath ;;
            match err with
            | Some e => log_Fatalf ("failed to upload: " +:+ e)
            | None =>
                fmt_Printf ("Backup completed" +:+ newline) ;;;
                ret 0
            end
        end
    end
end.

End program.

(** ** Reading a trace *)

#[global] Instance Call_eq_dec : EqDecision Call.
Proof. solve_decision. Defined.

(** The output file of a dump process that ended well. *)
Definition dumpedOf (e : Event) : option string :=
  match e with
  | Called (CmdRun _ stdout) None => Some stdout
  | _ => None
  end.

(** The database a dump process that ended well was run for: the last
    argument of its command line. *)
Definition dumpedDbOf (e : Event) : option string :=
  match e with
  | Called (CmdRun argv _) None => last argv
  | _ => None
  end.

(** The file a call tries to create, and the file a call has created. *)
Definition attemptOf (e : Event) : option string :=
  match e with
  | Called (OsCreate path) _ => Some path
  | _ => None
  end.

Definition createdOf (e : Event) : option string :=
  match e with
  | Called (OsCreate path) None => Some path
  | _ => None
  end.

Definition stampOf (e : Event) : option Time :=
  match e with
  | Now t => Some t
  | _ => None
  end.

Definition isQuit (e : Event) : bool :=
  match e with
  | Called FtpQuit _ => true
  | _ => false
  end.

Definition isCall (e : Event) : Prop :=
  match e with
  | Called _ _ => True
  | _ => False
  end.

(** A call that starts a dump process or creates a file. *)
Definition isDumpWork (e : Event) : bool :=
  match e with
  | Called (CmdRun _ _) _ | Called (OsCreate _) _ => true
  | _ => false
  end.

(** The file a call copies into the archive. *)
Definition readsOf (e : Event) : option string :=
  match e with
  | Called (IoCopy path) _ => Some path
  | _ => None
  end.

Definition dumpedPaths (tr : list Event) : list string := omap dumpedOf tr.

Definition dumped (tr : list Event) : list string := omap dumpedDbOf tr.

Definition attempts (tr : list Event) : list string := omap attemptOf tr.

Definition created (tr : list Event) : list string := omap createdOf tr.

Definition stamps (tr : list Event) : list Time := omap stampOf tr.

Definition quits (tr : list Event) : nat := length (filter isQuit tr).

Definition archivedFrom (tr : list Event) : list string := omap readsOf tr.

(** The archive of the run was stored on the server. *)
Definition uploaded (tr : list Event) : Prop :=
  exists remote local, Called (FtpStor remote local) None ∈ tr.

(** Closing a writer or a file never fails in this environment. *)
Definition flushes (env : Env) : Prop :=
  forall n,
    fault env n TarClose = None /\ fault env n GzipClose = None /\
    forall path, fault env n (FileClose path) = None.

#[global] Instance Time_eq_dec : EqDecision Time.
Proof. solve_decision. Defined.

#[global] Instance Event_eq_dec : EqDecision Event.
Proof. solve_decision. Defined.

(** ** Properties of runs

    [always P m]: every event of every run of [m] satisfies [P].
    [readonly m]: a run of [m] changes no file.  [keeps m]: a run of [m]
    changes no file but those it has created, and every file it has
    created is there when it returns. *)

Definition always {A : Type} (P : Event -> Prop) (m : M A) : Prop :=
  forall w, Forall P (traceOf (m w)).

Definition readonly {A : Type} (m : M A) : Prop :=
  forall w, fs (worldOf (m w)) = fs w.

Definition keeps {A : Type} (m : M A) : Prop :=
  forall w path,
    (path ∉ created (traceOf (m w)) -> fs (worldOf (m w)) !! path = fs w !! path) /\
    (path ∈ created (traceOf (m w)) -> is_Some (fs (worldOf (m w)) !! path)).

(** ** The events of the stages *)

(** Events that none of the readers above picks up: the calls that open,
    decode and close files, make directories, write headers, and talk to
    the server short of storing. *)
Definition silent (e : Event) : Prop :=
  match e with
  | Called (OsOpen _ | FileClose _ | JsonDecode _ | OsMkdirAll _
           | TarFileInfoHeader _ | TarWriteHeader _ | TarClose | GzipClose
           | FtpDial _ | FtpLogin _ _) _ => True
  | _ => False
  end.

(** Events of the dump loop. *)
Definition dumpEvent (e : Event) : Prop :=
  match e with
  | Called (OsCreate _ | CmdRun _ _ | FileClose _) _ => True
  | Logged _ => True
  | Printed line => exists rest, line = "creating database backup " +:+ rest
  | _ => False
  end.

(** Events of the loop of the archive stage. *)
Definition readEvent (e : Event) : Prop :=
  match e with
  | Called (OsStat _ | IoCopy _) _ => True
  | _ => silent e
  end.

(** Events of the archive stage writing to [archivePath]. *)
Definition archiveEvent (archivePath : string) (e : Event) : Prop :=
  match e with
  | Called (OsCreate path) _ => path = archivePath
  | _ => readEvent e
  end.

(** Events of the transfer stage. *)
Definition uploadEvent (e : Event) : Prop :=
  match e with
  | Called (FtpStor _ _ | FtpQuit) _ => True
  | _ => silent e
  end.

(** ** Lines, entries and names *)

Definition announceDump (config : Config) (db : string) : Event :=
  Printed ("creating database backup " +:+ db +:+ " -> " +:+
           backupFileOf config db +:+ newline).

(** The line logged for a dump that failed. *)
Definition reportLine (db : string) (e : error) : string :=
  "failed to backup database " +:+ db +:+ ": " +:+ e.

Definition reportDump (db : string) (e : error) : Event :=
  Logged (reportLine db e).

Definition announceArchive (archivePath : string) : Event :=
  Printed ("creating archive -> " +:+ archivePath +:+ newline).

Definition announceUpload (archivePath : string) : Event :=
  Printed ("uploading -> " +:+ archivePath +:+ newline).

Definition announceDone : Event := Printed ("Backup completed" +:+ newline).

(** The entry the loop writes for a file: the header carries the base
    name and the size, the data are the bytes of the file. *)
Definition entryOf (files : gmap string string) (file : string) : TarEntry :=
  let content := default EmptyString (files !! file) in
  {| Hdr := {| Name := filepath.Base file; Size := String.length content |};
     Data := content |}.

(** What the error of a failed archive says about the file it failed on. *)
Definition namesFile (e : error) (file : string) : Prop :=
  contains e file = true.

Definition headerWriteError (e : error) : Prop :=
  exists cause, e = wrap "failed to write file header into archive" cause.

(** The name the archive gives to the dump of a database: what follows
    the last slash of the database name, and [.sql]. *)
Definition entryNameOf (db : string) : string :=
  filepath.afterLastSep db +:+ ".sql".

Definition entryName (e : TarEntry) : string := Name (Hdr e).

(** What unpacking the file at [path] gives. *)
Definition unpacked (untargz : string -> option (list TarEntry)) (w : World)
  (path : string) : option (list TarEntry) :=
  match fs w !! path with
  | Some content => untargz content
  | None => None
  end.

Definition archiveName (t : Time) : string :=
  "backup_" +:+ Format t +:+ ".tar.gz".

(** A clock reading whose month, day, hour, minute and second have at
    most two digits, as every calendar time has. *)
Definition validTime (t : Time) : Prop :=
  Month t < 100 /\ Day t < 100 /\ Hour t < 100 /\ Minute t < 100 /\ Second t < 100.

(** Reading a decimal number back. *)
Definition atoi (s : string) : option nat :=
  option_map Nat.of_uint (NilEmpty.uint_of_string s).

(** ** The shape of a run *)

Section shapes.

Variable env : Env.
Variable targz : list TarEntry -> string.

(** One turn of the loop: it stops with an error, or it has added the
  entry of the file and goes on with the rest. *)
Inductive LoopStep (file : string) (files : list string)
(written : list TarEntry) (opened : list string) (w : World)
: option error * list TarEntry * list string * World * list Event -> Prop :=
| loop_stop e opened' w' t :
  fs w' = fs w ->
  Forall readEvent t ->
  (forall path, path ∈ archivedFrom t -> path = file) ->
  namesFile e file \/ headerWriteError e ->
  LoopStep file files written opened w ((Some e, written, opened'), w', t)
| loop_go content w' t :
  fs w !! file = Some content ->
  fs w' = fs w ->
  Forall readEvent t ->
  archivedFrom t = [file] ->
  let rest := archiveLoop env files (written ++ [entryOf (fs w) file])
                (file :: opened) w' in
  LoopStep file files written opened w
    (valueOf rest, worldOf rest, (t ++ traceOf rest)%list).

(** The world after a call that changes no file. *)
Definition mkdirWorld (w : World) : World := {| fs := fs w; tick := S (tick w) |}.

(** The five ways a run of [main] can go: it stops at the first stage
  that fails, or it completes. *)
Inductive Ran (w : World) : nat * World * list Event -> Prop :=
| ran_no_config config e w1 t1 :
  loadConfig env "config.json" w = ((config, Some e), w1, t1) ->
  Ran w (1, w1, (t1 ++ [Logged ("failed to load config: " +:+ e)])%list)
| ran_no_directory config w1 t1 e :
  loadConfig env "config.json" w = ((config, None), w1, t1) ->
  fault env (tick w1) (OsMkdirAll (BackupDirectory config)) = Some e ->
  Ran w (1, mkdirWorld w1,
         (t1 ++ Called (OsMkdirAll (BackupDirectory config)) (Some e) ::
          [Logged ("failed to create directory for backups: " +:+ e)])%list)
| ran_no_archive config w1 t1 files w3 t3 t w4 e w5 t5 :
  loadConfig env "config.json" w = ((config, None), w1, t1) ->
  fault env (tick w1) (OsMkdirAll (BackupDirectory config)) = None ->
  dumpLoop env config (Databases config) [] (mkdirWorld w1) = (files, w3, t3) ->
  now env w3 = (t, w4, [Now t]) ->
  archiveFiles env targz files (archivePathOf config t) w4 = (Some e, w5, t5) ->
  Ran w (1, w5,
         (t1 ++ Called (OsMkdirAll (BackupDirectory config)) None ::
          t3 ++ Now t :: announceArchive (archivePathOf config t) ::
          t5 ++ [Logged ("failed to archive: " +:+ e)])%list)
| ran_no_upload config w1 t1 files w3 t3 t w4 w5 t5 e w6 t6 :
  loadConfig env "config.json" w = ((config, None), w1, t1) ->
  fault env (tick w1) (OsMkdirAll (BackupDirectory config)) = None ->
  dumpLoop env config (Databases config) [] (mkdirWorld w1) = (files, w3, t3) ->
  now env w3 = (t, w4, [Now t]) ->
  archiveFiles env targz files (archivePathOf config t) w4 = (None, w5, t5) ->
  uploadToFTP env config (archivePathOf config t) w5 = (Some e, w6, t6) ->
  Ran w (1, w6,
         (t1 ++ Called (OsMkdirAll (BackupDirectory config)) None ::
          t3 ++ Now t :: announceArchive (archivePathOf config t) ::
          t5 ++ announceUpload (archivePathOf config t) ::
          t6 ++ [Logged ("failed to upload: " +:+ e)])%list)
| ran_completed config w1 t1 files w3 t3 t w4 w5 t5 w6 t6 :
  loadConfig env "config.json" w = ((config, None), w1, t1) ->
  fault env (tick w1) (OsMkdirAll (BackupDirectory config)) = None ->
  dumpLoop env config (Databases config) [] (mkdirWorld w1) = (files, w3, t3) ->
  now env w3 = (t, w4, [Now t]) ->
  archiveFiles env targz files (archivePathOf config t) w4 = (None, w5, t5) ->
  uploadToFTP env config (archivePathOf config t) w5 = (None, w6, t6) ->
  Ran w (0, w6,
         (t1 ++ Called (OsMkdirAll (BackupDirectory config)) None ::
          t3 ++ Now t :: announceArchive (archivePathOf config t) ::
          t5 ++ announceUpload (archivePathOf config t) ::
          t6 ++ [announceDone])%list).

End shapes.

(** ** The stages whose failure ends a run *)

(** The stages of a run whose failure ends it. *)
Inductive Stage : Type := LoadConfig | MakeDirectory | Archive | Upload.

Definition fatalContext (stage : Stage) : string :=
  match stage with
  | LoadConfig => "failed to load config: "
  | MakeDirectory => "failed to create directory for backups: "
  | Archive => "failed to archive: "
  | Upload => "failed to upload: "
  end.

(** The stages in the order of [main], without its messages: the first
    stage that fails, and its error. *)
Definition firstFailure (env : Env) (targz : list TarEntry -> string)
  : M (option (Stage * error)) :=
  loaded <- loadConfig env "config.json" ;;
  let '(config, err) := loaded in
  match err with
  | Some e => ret (Some (LoadConfig, e))
  | None =>
      err <- perform env (OsMkdirAll (BackupDirectory config)) ;;
      match err with
      | Some e => ret (Some (MakeDirectory, e))
      | None =>
          backupFiles <- dumpLoop env config (Databases config) [] ;;
          t <- now env ;;
          err <- archiveFiles env targz backupFiles (archivePathOf config t) ;;
          match err with
          | Some e => ret (Some (Archive, e))
          | None =>
              err <- uploadToFTP env config (archivePathOf config t) ;;
              match err with
              | Some e => ret (Some (Upload, e))
              | None => ret None
              end
          end
      end
  end.

(** ** A codec for examples

    A stand-in for the tar and gzip formats: numbers in unary, strings
    behind their length.  It is here to run the program on examples and to
    show that a codec with the round-trip property exists. *)

Module Framed.

Fixpoint unary (n : nat) (rest : string) : string :=
match n with
| O => String "0"%char rest
| S n' => String "1"%char (unary n' rest)
end.

Definition putString (s rest : string) : string :=
unary (String.length s) (s +:+ rest).

Definition putEntry (e : TarEntry) (rest : string) : string :=
putString (Name (Hdr e)) (unary (Size (Hdr e)) (putString (Data e) rest)).

Definition targz (es : list TarEntry) : string :=
unary (length es) (foldr putEntry EmptyString es).

Fixpoint getNat (s : string) : option (nat * string) :=
match s with
| String "0"%char rest => Some (0, rest)
| String "1"%char s' =>
    match getNat s' with
    | Some (n, rest) => Some (S n, rest)
    | None => None
    end
| _ => None
end.

Fixpoint take (n : nat) (s : string) : option (string * string) :=
match n, s with
| O, _ => Some (EmptyString, s)
| S n', String c s' =>
    match take n' s' with
    | Some (x, rest) => Some (String c x, rest)
    | None => None
    end
| S _, EmptyString => None
end.

Definition getString (s : string) : option (string * string) :=
match getNat s with
| Some (n, rest) => take n rest
| None => None
end.

Definition getEntry (s : string) : option (TarEntry * string) :=
match getString s with
| Some (name, s1) =>
    match getNat s1 with
    | Some (size, s2) =>
        match getString s2 with
        | Some (data, rest) =>
            Some ({| Hdr := {| Name := name; Size := size |}; Data := data |},
                  rest)
        | None => None
        end
    | None => None
    end
| None => None
end.

Fixpoint getEntries (n : nat) (s : string) : option (list TarEntry * string) :=
match n with
| O => Some ([], s)
| S n' =>
    match getEntry s with
    | Some (e, s1) =>
        match getEntries n' s1 with
        | Some (es, rest) => Some (e :: es, rest)
        | None => None
        end
    | None => None
    end
end.

Definition untargz (s : string) : option (list TarEntry) :=
match getNat s with
| Some (n, s1) =>
    match getEntries n s1 with
    | Some (es, EmptyString) => Some es
    | _ => None
    end
| None => None
end.

End Framed.

(** ** A sample installation *)

Module Sample.

Definition config : Config :=
{| MySQLHost := "db.internal"; MySQLUser := "backup";
   MySQLPassword := "secret"; Databases := ["app"; "billing"];
   BackupDirectory := "/var/backups"; FTPHost := "ftp.example.org:21";
   FTPUser := "store"; FTPPassword := "hunter2"; FTPDirectory := "nightly" |}.

Definition clock : Time :=
{| Year := 2024; Month := 3; Day := 9; Hour := 14; Minute := 5; Second := 0 |}.

(** An environment for the configuration [cfg] in which the calls picked
  by [bad] fail whenever they are made, and nothing else does; [clockAt]
  is the clock, and a file whose writers did not all finish is left
  empty. *)
Definition install (cfg : Config) (bad : Call -> option error)
(clockAt : nat -> Time) : Env :=
{| fault := fun _ c => bad c;
   decoded := fun _ _ => cfg;
   dumpOutput := fun _ argv => "-- dump of " +:+ default EmptyString (last argv);
   wallClock := clockAt;
   torn := fun _ => EmptyString |}.

Definition failing (bad : Call -> option error) : Env :=
install config bad (fun _ => clock).

Definition calm : Env := failing (fun _ => None).

Definition world : World :=
{| fs := {[ "config.json" := "{}" ]}; tick := 0 |}.

End Sample.

(** The disk fills up while the compressed stream is flushed. *)
Definition diskFull (c : Call) : option error :=
  match c with
  | GzipClose => Some "write /var/backups/backup.tar.gz: no space left on device"
  | _ => None
  end.

(** One dump file on disk. *)
Definition dumpWorld : World :=
  {| fs := {[ "/var/backups/app.sql" := "CREATE TABLE t (id INT);" ]}; tick := 0 |}.

(** Writing a header fails. *)
Definition headerFails (c : Call) : option error :=
  match c with
  | TarWriteHeader _ =>
      Some "write /var/backups/backup.tar.gz: no space left on device"
  | _ => None
  end.

Module Scenario.

(** The dump of [billing] exits with status 2. *)
Definition billingFails (c : Call) : option error :=
match c with
| CmdRun argv _ =>
    if bool_decide (last argv = Some "billing") then Some "exit status 2"
    else None
| _ => None
end.

(** The server refuses the store command. *)
Definition storeFails (c : Call) : option error :=
match c with
| FtpStor _ _ => Some "550 permission denied"
| _ => None
end.

(** The backup directory cannot be made. *)
Definition mkdirFails (c : Call) : option error :=
match c with
| OsMkdirAll _ => Some "mkdir /var/backups: permission denied"
| _ => None
end.




Definition later : Time :=
{| Year := 2024; Month := 3; Day := 9; Hour := 14; Minute := 5; Second := 1 |}.

(** A run that starts at 14:05:00 and reads the clock again at 14:05:01,
  and a run that starts at 14:05:01. *)
Definition slow : Env :=
Sample.install Sample.config (fun _ => None)
  (fun n => if bool_decide (n = 0) then Sample.clock else later).

Definition prompt : Env :=
Sample.install Sample.config (fun _ => None) (fun _ => later).

Definition archive : string := "/var/backups/backup_20240309_140500.tar.gz".

Definition archiveLater : string := "/var/backups/backup_20240309_140501.tar.gz".

End Scenario.

(** ** More readers of a trace

    What the remaining calls of a run say: which processes were started,
    which lines were logged, which files the archive stage looked at,
    opened, copied and closed, and which calls went to the server. *)

Definition loggedOf (e : Event) : option string :=
  match e with
  | Logged line => Some line
  | _ => None
  end.

(** The command line and the standard output of a process the run starts. *)
Definition commandOf (e : Event) : option (list string * string) :=
  match e with
  | Called (CmdRun argv stdout) _ => Some (argv, stdout)
  | _ => None
  end.

(** The file a call asks the information of. *)
Definition statOf (e : Event) : option string :=
  match e with
  | Called (OsStat path) _ => Some path
  | _ => None
  end.

(** The file a call has opened. *)
Definition openedOf (e : Event) : option string :=
  match e with
  | Called (OsOpen path) None => Some path
  | _ => None
  end.

(** The file a call has copied into the archive to its end. *)
Definition copiedOf (e : Event) : option string :=
  match e with
  | Called (IoCopy path) None => Some path
  | _ => None
  end.

(** What a call closes: a file, or one of the two writers. *)
Definition closeOf (e : Event) : option Call :=
  match e with
  | Called (FileClose path) _ => Some (FileClose path)
  | Called TarClose _ => Some TarClose
  | Called GzipClose _ => Some GzipClose
  | _ => None
  end.

Definition logged (tr : list Event) : list string := omap loggedOf tr.

Definition commands (tr : list Event) : list (list string * string) :=
  omap commandOf tr.

Definition statted (tr : list Event) : list string := omap statOf tr.

Definition openedFiles (tr : list Event) : list string := omap openedOf tr.

Definition copied (tr : list Event) : list string := omap copiedOf tr.

Definition closes (tr : list Event) : list Call := omap closeOf tr.

(** The process [main] starts for a database, and the file it writes to. *)
Definition dumpCommand (config : Config) (db : string) : list string * string :=
  (mysqldumpArgv config db, backupFileOf config db).

(** A call to the FTP server. *)
Definition isFtp (c : Call) : bool :=
  match c with
  | FtpDial _ | FtpLogin _ _ | FtpStor _ _ | FtpQuit => true
  | _ => false
  end.

(** Events that do not reach the server. *)
Definition offline (e : Event) : Prop :=
  match e with
  | Called c _ => isFtp c = false
  | _ => True
  end.

(** Events that reach no server but the configured one, with no
    credentials but the configured ones. *)
Definition ftpEvent (config : Config) (e : Event) : Prop :=
  match e with
  | Called (FtpDial host) _ => host = FTPHost config
  | Called (FtpLogin user password) _ =>
      user = FTPUser config /\ password = FTPPassword config
  | _ => True
  end.

(** The configuration [main] goes on with: what [loadConfig] returns. *)
Definition loadedConfig (env : Env) (w : World) : Config :=
  (valueOf (loadConfig env "config.json" w)).1.

Module Host.

(** A host without any file. *)
Definition bare : World := {| fs := ∅; tick := 0 |}.

(** A host that holds the archive of the sample run. *)
Definition stocked : World :=
{| fs := {[ Scenario.archive := "archive bytes" ]}; tick := 0 |}.

(** The remote path of the archive of the sample run. *)
Definition remote : string := "nightly/backup_20240309_140500.tar.gz".

End Host.

(** * The proofs *)

Local Arguments String.append !_ _ / : simpl nomatch.

Section string_facts.

Lemma append_nil_r (s : string) : s +:+ EmptyString = s.
Proof. induction s as [|c s IH]; simpl; [done|]. by rewrite IH. Qed.

Lemma append_assoc (a b c : string) : (a +:+ b) +:+ c = a +:+ (b +:+ c).
Proof. induction a as [|x a IH]; simpl; [done|]. by rewrite IH. Qed.

Lemma append_length (a b : string) :
String.length (a +:+ b) = String.length a + String.length b.
Proof. induction a as [|x a IH]; simpl; [done|]. by rewrite IH. Qed.

Lemma append_eq_nil (a b : string) :
a +:+ b = EmptyString -> a = EmptyString /\ b = EmptyString.
Proof. destruct a; simpl; [done|discriminate]. Qed.

(** Two concatenations with tails of the same length split alike. *)
Lemma append_inj_tail (a1 a2 b1 b2 : string) :
String.length b1 = String.length b2 ->
a1 +:+ b1 = a2 +:+ b2 -> a1 = a2 /\ b1 = b2.
Proof.
revert a2. induction a1 as [|x a1 IH]; intros [|y a2] Hlen Heq; simpl in *.
- done.
- subst b1. simpl in Hlen. rewrite append_length in Hlen. lia.
- subst b2. simpl in Hlen. rewrite append_length in Hlen. lia.
- injection Heq as -> Heq. destruct (IH _ Hlen Heq) as [-> ->]. done.
Qed.

Lemma prefix_append (a b : string) : String.prefix a (a +:+ b) = true.
Proof.
induction a as [|x a IH]; simpl.
- by destruct b.
- destruct (ascii_dec x x); [done|congruence].
Qed.

Lemma contains_prefix (s sub : string) :
String.prefix sub s = true -> contains s sub = true.
Proof. intros H. destruct s; simpl in *; rewrite H; done. Qed.

Lemma contains_append_r (a s b : string) :
contains (a +:+ s +:+ b) s = true.
Proof.
induction a as [|x a IH]; simpl.
- apply contains_prefix, prefix_append.
- rewrite IH. apply orb_true_r.
Qed.

Lemma contains_wrap_cause (ctx err : string) : contains (wrap ctx err) err = true.
Proof.
unfold wrap.
replace (ctx +:+ ": " +:+ err)
  with ((ctx +:+ ": ") +:+ err +:+ EmptyString).
- apply contains_append_r.
- by rewrite append_nil_r, append_assoc.
Qed.

Lemma hasSep_append (a b : string) : hasSep (a +:+ b) = hasSep a || hasSep b.
Proof. induction a as [|x a IH]; simpl; [done|]. by rewrite IH, orb_assoc. Qed.

End string_facts.

(** ** Facts of [path/filepath] *)

Module filepath_facts.

Import filepath.

Example Clean_ex1 : Clean "/var//backups/./x/../app.sql" = "/var/backups/app.sql".
Proof. reflexivity. Qed.

Example Clean_ex2 : Clean "../../a/" = "../../a".
Proof. reflexivity. Qed.

Example Clean_ex3 : Clean "/../" = "/".
Proof. reflexivity. Qed.

Example Clean_ex4 : Clean "a/.." = ".".
Proof. reflexivity. Qed.

Example Join_ex1 : Join [EmptyString; "b"; EmptyString; "c.sql"] = "b/c.sql".
Proof. reflexivity. Qed.

Example Base_ex1 : Base "/var/backups/app.sql" = "app.sql".
Proof. reflexivity. Qed.

Example Base_ex2 : Base "a/b//" = "b".
Proof. reflexivity. Qed.

Example Base_ex3 : Base "///" = "/".
Proof. reflexivity. Qed.

Lemma hasSep_afterLastSep (s : string) : hasSep (afterLastSep s) = false.
Proof.
induction s as [|c s IH]; simpl; [done|].
destruct (hasSep s) eqn:Hs; [done|].
destruct (isSep c) eqn:Hc; simpl; [done|]. by rewrite Hc, Hs.
Qed.

Lemma afterLastSep_nosep (s : string) : hasSep s = false -> afterLastSep s = s.
Proof.
destruct s as [|c s]; simpl; [done|].
intros [Hc Hs]%orb_false_elim. by rewrite Hs, Hc.
Qed.

Lemma afterLastSep_append (a b : string) :
hasSep b = false -> afterLastSep (a +:+ b) = afterLastSep a +:+ b.
Proof.
intros Hb. induction a as [|c a IH]; simpl.
- by apply afterLastSep_nosep.
- rewrite hasSep_append, Hb, orb_false_r.
  destruct (hasSep a); [done|]. by destruct (isSep c).
Qed.

Lemma afterLastSep_sep (a b : string) :
hasSep b = false -> afterLastSep (a +:+ String slash b) = b.
Proof.
intros Hb. induction a as [|c a IH]; simpl.
- by rewrite Hb.
- rewrite hasSep_append. simpl. by rewrite orb_true_r.
Qed.

Lemma stripTrailingSep_append (a b : string) :
hasSep b = false -> b <> EmptyString -> stripTrailingSep (a +:+ b) = a +:+ b.
Proof.
intros Hb Hne. induction a as [|c a IH]; simpl.
- clear Hne. induction b as [|x b IH]; simpl; [done|].
  simpl in Hb. apply orb_false_elim in Hb as [Hx Hb].
  rewrite (IH Hb). destruct b; [by rewrite Hx|done].
- rewrite IH. destruct (a +:+ b) eqn:E; [|done].
  by apply append_eq_nil in E as [_ ?].
Qed.

(** [Base] returns the last element of a path that ends in a plain one. *)
Lemma Base_last (a e : string) :
hasSep e = false -> e <> EmptyString ->
Base e = e /\ Base (a +:+ String slash e) = e.
Proof.
intros He Hne. unfold Base. split.
- rewrite bool_decide_eq_false_2 by done.
  pose proof (stripTrailingSep_append EmptyString e He Hne) as H.
  simpl in H. rewrite H.
  rewrite afterLastSep_nosep by done. by rewrite bool_decide_eq_false_2.
- rewrite bool_decide_eq_false_2
    by (intros [_ ?]%append_eq_nil; discriminate).
  replace (a +:+ String slash e) with ((a +:+ "/") +:+ e)
    by (by rewrite append_assoc).
  rewrite stripTrailingSep_append by done.
  rewrite append_assoc. simpl.
  rewrite afterLastSep_sep by done. by rewrite bool_decide_eq_false_2.
Qed.

Lemma afterLastSep_skip (a b : string) :
afterLastSep (a +:+ String slash b) = afterLastSep b.
Proof.
induction a as [|c a IH]; simpl.
- destruct (hasSep b) eqn:Hb; [done|]. by rewrite afterLastSep_nosep.
- rewrite hasSep_append. simpl. by rewrite orb_true_r.
Qed.

Lemma splitSep_nosep (s : string) : hasSep s = false -> splitSep s = [s].
Proof.
induction s as [|c s IH]; simpl; [done|].
intros [Hc Hs]%orb_false_elim. by rewrite Hc, (IH Hs).
Qed.

Lemma splitSep_sep (s : string) :
hasSep s = true -> exists x y ys, splitSep s = x :: y :: ys.
Proof.
induction s as [|c s IH]; simpl; [done|].
destruct (isSep c) eqn:Hc; simpl.
- intros _. destruct (splitSep s) as [|y ys] eqn:E.
  + by destruct s; simpl in E; [|destruct (isSep a), (splitSep s)].
  + by exists EmptyString, y, ys.
- intros Hs. destruct (IH Hs) as (x & y & ys & ->). by exists (String c x), y, ys.
Qed.

Lemma splitSep_last (s : string) :
exists front, splitSep s = (front ++ [afterLastSep s])%list.
Proof.
induction s as [|c s [front IH]]; simpl.
- by exists [].
- destruct (hasSep s) eqn:Hs.
  + destruct (splitSep_sep s Hs) as (x & y & ys & E).
    destruct (isSep c).
    * exists (EmptyString :: front). by rewrite IH.
    * rewrite E. rewrite E in IH. destruct front as [|z front]; [done|].
      injection IH as -> IH. exists (String c z :: front). by rewrite IH.
  + rewrite (splitSep_nosep s Hs). destruct (isSep c).
    * by exists [EmptyString].
    * by exists [].
Qed.

Lemma concat_snoc (sep : string) (l : list string) (e : string) :
String.concat sep (l ++ [e])%list =
match l with
| [] => e
| _ => String.concat sep l +:+ sep +:+ e
end.
Proof.
induction l as [|x l IH]; [done|].
change ((x :: l) ++ [e])%list with (x :: (l ++ [e]))%list.
destruct l as [|y l]; [done|].
change (String.concat sep (x :: (y :: l) ++ [e])%list)
  with (x +:+ sep +:+ String.concat sep ((y :: l) ++ [e])%list).
rewrite IH.
change (String.concat sep (x :: y :: l))
  with (x +:+ sep +:+ String.concat sep (y :: l)).
by rewrite !append_assoc.
Qed.

Lemma cleanStep_plain (root : bool) (stack : list string) (e : string) :
plain e -> cleanStep root stack e = e :: stack.
Proof.
intros (_ & Hne & Hdot & Hdots). unfold cleanStep.
by rewrite !bool_decide_eq_false_2.
Qed.

(** [Clean] keeps a plain last element in last position. *)
Lemma Clean_last (path : string) :
plain (afterLastSep path) ->
Clean path = afterLastSep path \/
exists a, Clean path = a +:+ String slash (afterLastSep path).
Proof.
intros Hp. pose proof Hp as (Hsep & Hne & Hdot & Hdots).
destruct (splitSep_last path) as [front Hsplit].
unfold Clean. rewrite Hsplit, fold_left_app. simpl.
rewrite cleanStep_plain by done.
set (st := fold_left _ front []). simpl.
rewrite concat_snoc.
destruct (rooted path).
- right. destruct (rev st) as [|x l].
  + by exists EmptyString.
  + exists ("/" +:+ String.concat "/" (x :: l)).
    by rewrite !append_assoc.
- destruct (rev st) as [|x l].
  + left. by rewrite bool_decide_eq_false_2.
  + right. exists (String.concat "/" (x :: l)).
    rewrite bool_decide_eq_false_2; [done|].
    intros [_ [=]]%append_eq_nil.
Qed.

Lemma Base_Clean (path : string) :
plain (afterLastSep path) -> Base (Clean path) = afterLastSep path.
Proof.
intros Hp. pose proof Hp as (Hsep & Hne & _).
destruct (Clean_last path Hp) as [->|[a ->]].
- by apply (Base_last EmptyString).
- by apply Base_last.
Qed.

(** The base name of a path joined from a directory and a name is the
  last element of the name. *)
Lemma Base_Join (dir name : string) :
plain (afterLastSep name) ->
Base (Join [dir; name]) = afterLastSep name.
Proof.
intros Hp. assert (name <> EmptyString) as Hname.
{ intros ->. by destruct Hp as (_ & ? & _). }
simpl. case_bool_decide as Hdir.
- rewrite bool_decide_eq_false_2 by done. by apply Base_Clean.
- change (String.concat "/" [dir; name]) with (dir +:+ String slash name).
  rewrite <- (afterLastSep_skip dir name) in *. by apply Base_Clean.
Qed.

Lemma plain_append (a b : string) :
hasSep a = false -> hasSep b = false -> 2 < String.length b ->
plain (a +:+ b).
Proof.
intros Ha Hb Hlen. split; [by rewrite hasSep_append, Ha, Hb|].
assert (forall s, s = a +:+ b -> 2 < String.length s) as Hl.
{ intros s ->. rewrite append_length. lia. }
repeat split; intros E; symmetry in E; apply Hl in E; simpl in E; lia.
Qed.

End filepath_facts.

Local Arguments String.append : simpl never.

Arguments wrap : simpl never.

Example Format_ex :
  Format {| Year := 2024; Month := 3; Day := 9;
            Hour := 14; Minute := 5; Second := 0 |} = "20240309_140500".
Proof. reflexivity. Qed.

(** ** Laws of the monad *)

Section monad_facts.

Context {A B : Type}.

Lemma bind_value (m : M A) (k : A -> M B) (w : World) :
valueOf (bind m k w) = valueOf (k (valueOf (m w)) (worldOf (m w))).
Proof.
unfold bind, valueOf, worldOf. destruct (m w) as [[a w1] t1]. simpl.
by destruct (k a w1) as [[b w2] t2].
Qed.

Lemma bind_world (m : M A) (k : A -> M B) (w : World) :
worldOf (bind m k w) = worldOf (k (valueOf (m w)) (worldOf (m w))).
Proof.
unfold bind, valueOf, worldOf. destruct (m w) as [[a w1] t1]. simpl.
by destruct (k a w1) as [[b w2] t2].
Qed.

Lemma bind_trace (m : M A) (k : A -> M B) (w : World) :
traceOf (bind m k w) =
(traceOf (m w) ++ traceOf (k (valueOf (m w)) (worldOf (m w))))%list.
Proof.
unfold bind, valueOf, worldOf, traceOf. destruct (m w) as [[a w1] t1]. simpl.
by destruct (k a w1) as [[b w2] t2].
Qed.

End monad_facts.

Section defer_facts.

Context {A B : Type}.

Lemma defer_value (d : M B) (body : M A) (w : World) :
valueOf (defer d body w) = valueOf (body w).
Proof. unfold defer. by rewrite !bind_value. Qed.

Lemma defer_trace (d : M B) (body : M A) (w : World) :
traceOf (defer d body w) =
(traceOf (body w) ++ traceOf (d (worldOf (body w))))%list.
Proof.
unfold defer. rewrite !bind_trace. simpl. by rewrite app_nil_r.
Qed.

Lemma defer_world (d : M B) (body : M A) (w : World) :
worldOf (defer d body w) = worldOf (d (worldOf (body w))).
Proof. unfold defer. by rewrite !bind_world. Qed.

End defer_facts.

Lemma run_eta {A : Type} (x : A * World * list Event) :
  x = (valueOf x, worldOf x, traceOf x).
Proof. by destruct x as [[a w] t]. Qed.

(** Rewriting a run into its value, world and trace, stage by stage. *)
Ltac run_simpl :=
  repeat first
    [ rewrite bind_value | rewrite bind_world | rewrite bind_trace
    | rewrite defer_value | rewrite defer_world | rewrite defer_trace ];
  cbn [valueOf worldOf traceOf ret emit fst snd].

Section always_facts.

Context {A B : Type} (P : Event -> Prop).

Lemma always_ret (a : A) : always P (ret a).
Proof. intros w. constructor. Qed.

Lemma always_bind (m : M A) (k : A -> M B) :
always P m -> (forall a, always P (k a)) -> always P (bind m k).
Proof.
intros Hm Hk w. rewrite bind_trace. apply Forall_app. split; [apply Hm|apply Hk].
Qed.

Lemma always_lookupFile (path : string) : always P (lookupFile path).
Proof. intros w. constructor. Qed.

Lemma always_stepNo : always P stepNo.
Proof. intros w. constructor. Qed.

Lemma always_modify f : always P (modify f).
Proof. intros w. constructor. Qed.

Lemma always_emit (e : Event) : P e -> always P (emit e).
Proof. intros He w. by repeat constructor. Qed.

Lemma always_performOr (env : Env) (c : Call) (natural : option error) :
(forall r, P (Called c r)) -> always P (performOr env c natural).
Proof. intros Hc w. by repeat constructor. Qed.

Lemma always_perform (env : Env) (c : Call) :
(forall r, P (Called c r)) -> always P (perform env c).
Proof. apply always_performOr. Qed.

Lemma always_now (env : Env) : (forall t, P (Now t)) -> always P (now env).
Proof. intros Ht w. by repeat constructor. Qed.

End always_facts.

Lemma always_defer {A B : Type} (P : Event -> Prop) (d : M B) (body : M A) :
  always P body -> always P d -> always P (defer d body).
Proof.
  intros Hb Hd. unfold defer. apply always_bind; [done|]. intros a.
  apply always_bind; [done|]. intros _. apply always_ret.
Qed.

(** One step of a proof of [always]: through a sequence, a deferred call,
    a case distinction, or at a leaf. *)
Ltac always_step :=
  idtac;
  lazymatch goal with
  | |- always _ (bind _ _) => apply always_bind; [|intros ?]
  | |- always _ (defer _ _) => apply always_defer
  | |- always _ (ret _) => apply always_ret
  | |- always _ (lookupFile _) => apply always_lookupFile
  | |- always _ stepNo => apply always_stepNo
  | |- always _ (modify _) => apply always_modify
  | |- always _ (emit _) => apply always_emit
  | |- always _ (fmt_Printf _) => apply always_emit
  | |- always _ (log_Printf _) => apply always_emit
  | |- always _ (performOr _ _ _) => apply always_performOr; intros ?
  | |- always _ (perform _ _) => apply always_perform; intros ?
  | |- always _ (now _) => apply always_now; intros ?
  | |- always _ (match ?x with _ => _ end) => destruct x
  | |- always _ (let _ := _ in _) => cbv zeta
  end.

Ltac always_auto := repeat (always_step; try done; try (eexists; reflexivity)).

Section stage_events.

Variable env : Env.

Variable targz : list TarEntry -> string.

Lemma os_Open_silent (path : string) : always silent (os_Open env path).
Proof. unfold os_Open. always_auto. Qed.

Lemma loadConfig_silent (filename : string) :
always silent (loadConfig env filename).
Proof. unfold loadConfig, os_Open. always_auto. Qed.

Lemma backupDatabase_events (config : Config) (db out : string) :
always dumpEvent (backupDatabase env config db out).
Proof. unfold backupDatabase, os_Create, cmd_Run. always_auto. Qed.

Lemma dumpLoop_events (config : Config) (dbs acc : list string) :
always dumpEvent (dumpLoop env config dbs acc).
Proof.
revert acc. induction dbs as [|db dbs IH]; intros acc; simpl.
- always_auto.
- always_step; [always_auto|]. always_step; [apply backupDatabase_events|].
  always_step; [|apply IH]. always_step; [always_auto|]. apply IH.
Qed.

Lemma archiveLoop_events (files : list string) written opened :
always readEvent (archiveLoop env files written opened).
Proof.
revert written opened.
induction files as [|file files IH]; intros written opened; simpl.
- always_auto.
- unfold os_Stat, tar_FileInfoHeader, os_Open, io_Copy.
  repeat (always_step; try done; try apply IH).
Qed.

Lemma closeAll_silent (opened : list string) : always silent (closeAll env opened).
Proof. induction opened as [|f opened IH]; simpl; always_auto. Qed.

Lemma archiveFiles_events (files : list string) (path : string) :
always (archiveEvent path) (archiveFiles env targz files path).
Proof.
unfold archiveFiles, os_Create.
apply always_bind; [always_auto|]. intros [e|]; [always_auto|].
apply always_bind.
{ intros w. eapply Forall_impl; [apply archiveLoop_events|].
  by intros [[]| | |]. }
intros [[err written] opened].
apply always_bind.
{ intros w. eapply Forall_impl; [apply closeAll_silent|].
  by intros [[]| | |]. }
intros _. always_auto.
Qed.

Lemma uploadToFTP_events (config : Config) (localFile : string) :
always uploadEvent (uploadToFTP env config localFile).
Proof. unfold uploadToFTP, os_Open. always_auto. Qed.

End stage_events.

(** ** What the readers find in the events of a stage *)

Lemma omap_cons {X Y : Type} (f : X -> option Y) (x : X) (l : list X) :
  omap f (x :: l) =
  match f x with
  | Some y => y :: omap f l
  | None => omap f l
  end.
Proof. reflexivity. Qed.

Lemma omap_none {X Y : Type} (f : X -> option Y) (l : list X) :
  Forall (fun x => f x = None) l -> omap f l = [].
Proof. induction 1 as [|x l Hx _ IH]; [done|]. cbn. by rewrite Hx. Qed.

Lemma filter_none {X : Type} (f : X -> bool) (l : list X) :
  Forall (fun x => f x = false) l -> filter f l = [].
Proof.
  induction 1 as [|x l Hx _ IH]; [done|].
  rewrite filter_cons_False; [done|]. rewrite Hx. by intros [].
Qed.

Section readers.

Variable tr : list Event.

Lemma silent_reads :
Forall silent tr ->
dumpedPaths tr = [] /\ dumped tr = [] /\ attempts tr = [] /\
created tr = [] /\ stamps tr = [] /\ archivedFrom tr = [] /\
quits tr = 0 /\ (forall line, Printed line ∉ tr) /\ ~ uploaded tr.
Proof.
intros H. unfold quits.
repeat split;
  try (apply omap_none; eapply Forall_impl; [exact H|]; by intros [[]| | |]).
- rewrite filter_none; [done|].
  eapply Forall_impl; [exact H|]. by intros [[]| | |].
- intros line Hin. by apply (proj1 (Forall_forall _ _) H) in Hin.
- intros (remote & loc & Hin). by apply (proj1 (Forall_forall _ _) H) in Hin.
Qed.

Lemma dump_reads :
Forall dumpEvent tr ->
stamps tr = [] /\ archivedFrom tr = [] /\ quits tr = 0 /\ ~ uploaded tr /\
(forall line, Printed line ∈ tr ->
   exists rest, line = "creating database backup " +:+ rest).
Proof.
intros H. unfold quits.
repeat split;
  try (apply omap_none; eapply Forall_impl; [exact H|]; by intros [[]| | |]).
- rewrite filter_none; [done|].
  eapply Forall_impl; [exact H|]. by intros [[]| | |].
- intros (remote & loc & Hin). by apply (proj1 (Forall_forall _ _) H) in Hin.
- intros line Hin. by apply (proj1 (Forall_forall _ _) H) in Hin.
Qed.

Lemma read_reads :
Forall readEvent tr ->
dumpedPaths tr = [] /\ dumped tr = [] /\ attempts tr = [] /\
created tr = [] /\ stamps tr = [] /\ quits tr = 0.
Proof.
intros H. unfold quits.
repeat split;
  try (apply omap_none; eapply Forall_impl; [exact H|]; by intros [[]| | |]).
rewrite filter_none; [done|].
eapply Forall_impl; [exact H|]. by intros [[]| | |].
Qed.

Lemma archive_reads (archivePath : string) :
Forall (archiveEvent archivePath) tr ->
dumpedPaths tr = [] /\ dumped tr = [] /\ stamps tr = [] /\ quits tr = 0 /\
(forall line, Printed line ∉ tr) /\ ~ uploaded tr /\
(forall path, path ∈ attempts tr -> path = archivePath).
Proof.
intros H. unfold quits.
repeat split;
  try (apply omap_none; eapply Forall_impl; [exact H|]; by intros [[]| | |]).
- rewrite filter_none; [done|].
  eapply Forall_impl; [exact H|]. by intros [[]| | |].
- intros line Hin. by apply (proj1 (Forall_forall _ _) H) in Hin.
- intros (remote & loc & Hin). by apply (proj1 (Forall_forall _ _) H) in Hin.
- intros path (e & Hin & He)%list_elem_of_omap.
  apply (proj1 (Forall_forall _ _) H) in Hin.
  destruct e as [[] r| | |]; simplify_eq/=; done.
Qed.

Lemma upload_reads :
Forall uploadEvent tr ->
dumpedPaths tr = [] /\ dumped tr = [] /\ attempts tr = [] /\
created tr = [] /\ stamps tr = [] /\ archivedFrom tr = [] /\
(forall line, Printed line ∉ tr).
Proof.
intros H.
repeat split;
  try (apply omap_none; eapply Forall_impl; [exact H|]; by intros [[]| | |]).
intros line Hin. by apply (proj1 (Forall_forall _ _) H) in Hin.
Qed.

End readers.

Section readonly_facts.

Context {A B : Type}.

Lemma readonly_ret (a : A) : readonly (ret a).
Proof. done. Qed.

Lemma readonly_bind (m : M A) (k : A -> M B) :
readonly m -> (forall a, readonly (k a)) -> readonly (bind m k).
Proof. intros Hm Hk w. by rewrite bind_world, Hk, Hm. Qed.

Lemma readonly_performOr (env : Env) (c : Call) (natural : option error) :
readonly (performOr env c natural).
Proof. done. Qed.

End readonly_facts.

Lemma readonly_defer {A B : Type} (d : M B) (body : M A) :
  readonly body -> readonly d -> readonly (defer d body).
Proof.
  intros Hb Hd. unfold defer. apply readonly_bind; [done|]. intros a.
  apply readonly_bind; [done|]. intros _. apply readonly_ret.
Qed.

Ltac readonly_step :=
  idtac;
  lazymatch goal with
  | |- readonly (bind _ _) => apply readonly_bind; [|intros ?]
  | |- readonly (defer _ _) => apply readonly_defer
  | |- readonly (ret _) => apply readonly_ret
  | |- readonly (lookupFile _) => done
  | |- readonly stepNo => done
  | |- readonly (emit _) => done
  | |- readonly (performOr _ _ _) => apply readonly_performOr
  | |- readonly (perform _ _) => apply readonly_performOr
  | |- readonly (now _) => done
  | |- readonly (match ?x with _ => _ end) => destruct x
  | |- readonly (let _ := _ in _) => cbv zeta
  end.

Ltac readonly_auto := repeat (readonly_step; try done).

Section readonly_stages.

Variable env : Env.

Lemma loadConfig_readonly (filename : string) : readonly (loadConfig env filename).
Proof. unfold loadConfig, os_Open. readonly_auto. Qed.

Lemma archiveLoop_readonly (files : list string) written opened :
readonly (archiveLoop env files written opened).
Proof.
revert written opened.
induction files as [|file files IH]; intros written opened; simpl.
- readonly_auto.
- unfold os_Stat, tar_FileInfoHeader, os_Open, io_Copy.
  repeat (readonly_step; try done; try apply IH).
Qed.

Lemma closeAll_readonly (opened : list string) : readonly (closeAll env opened).
Proof. induction opened as [|f opened IH]; simpl; readonly_auto. Qed.

Lemma uploadToFTP_readonly (config : Config) (localFile : string) :
readonly (uploadToFTP env config localFile).
Proof. unfold uploadToFTP, os_Open. readonly_auto. Qed.

End readonly_stages.

Lemma keeps_bind {A B : Type} (m : M A) (k : A -> M B) :
  keeps m -> (forall a, keeps (k a)) -> keeps (bind m k).
Proof.
  intros Hm Hk w path. rewrite bind_world, bind_trace.
  unfold created. rewrite omap_app. fold (created (traceOf (m w))).
  set (a := valueOf (m w)). set (w1 := worldOf (m w)).
  fold (created (traceOf (k a w1))).
  destruct (Hm w path) as [Hm1 Hm2]. destruct (Hk a w1 path) as [Hk1 Hk2].
  fold w1 in Hm1, Hm2. split.
  - intros Hnot. rewrite Hk1, Hm1; [done|..]; intros ?; apply Hnot;
      apply elem_of_app; auto.
  - intros [H1|H2]%elem_of_app; [|by apply Hk2].
    destruct (decide (path ∈ created (traceOf (k a w1)))) as [Hin|Hout].
    + by apply Hk2.
    + rewrite Hk1 by done. by apply Hm2.
Qed.

Lemma keeps_readonly {A : Type} (m : M A) :
  readonly m -> always (fun e => createdOf e = None) m -> keeps m.
Proof.
  intros Hro Hno w path. rewrite Hro.
  unfold created. rewrite omap_none by apply Hno. split; [done|].
  by intros ?%elem_of_nil.
Qed.

Lemma keeps_frame {A : Type} (m : M A) (w : World) (path : string) :
  keeps m -> is_Some (fs w !! path) -> is_Some (fs (worldOf (m w)) !! path).
Proof.
  intros Hk Hsome. destruct (Hk w path) as [H1 H2].
  destruct (decide (path ∈ created (traceOf (m w)))); [by apply H2|].
  by rewrite H1.
Qed.

Section stage_files.

Variable env : Env.

Variable targz : list TarEntry -> string.

(** What one dump leaves behind, by cases on the two calls that can
  fail. *)
Lemma backupDatabase_run (config : Config) (db out : string) (w : World) :
let argv := mysqldumpArgv config db in
let r := backupDatabase env config db out w in
match fault env (tick w) (OsCreate out) with
| Some cause =>
    r = (Some (wrap "failed to create database copy file" cause),
         {| fs := fs w; tick := S (tick w) |},
         [Called (OsCreate out) (Some cause)])
| None =>
    exists closed,
      r = (match fault env (S (tick w)) (CmdRun argv out) with
           | Some cause => Some (wrap "failed to execute mysqldump" cause)
           | None => None
           end,
           {| fs := <[out := dumpOutput env (S (tick w)) argv]>
                      (<[out := EmptyString]> (fs w));
              tick := S (S (S (tick w))) |},
           [Called (OsCreate out) None;
            Called (CmdRun argv out) (fault env (S (tick w)) (CmdRun argv out));
            Called (FileClose out) closed])
end.
Proof.
intros argv r. subst r. unfold backupDatabase, os_Create, cmd_Run.
unfold defer, bind, perform, performOr, modify, stepNo, ret, setFs. cbn.
destruct (fault env (tick w) (OsCreate out)) as [cause|]; cbn; [done|].
fold argv.
destruct (fault env (S (tick w)) (CmdRun argv out)) as [cause|]; cbn;
  eexists; reflexivity.
Qed.

Lemma backupDatabase_keeps (config : Config) (db out : string) :
keeps (backupDatabase env config db out).
Proof.
intros w path. pose proof (backupDatabase_run config db out w) as H.
cbv zeta in H.
destruct (fault env (tick w) (OsCreate out)) as [cause|].
- rewrite H. cbn. split; [done|]. by intros ?%elem_of_nil.
- destruct H as [closed ->]. unfold created, worldOf, traceOf. cbn.
  (split; [intros Hne; rewrite !lookup_insert_ne; [done|..];
             intros ->; apply Hne; by left
            |intros ->%list_elem_of_singleton; rewrite lookup_insert_eq; eauto]).
Qed.

Lemma dumpLoop_keeps (config : Config) (dbs acc : list string) :
keeps (dumpLoop env config dbs acc).
Proof.
revert acc. induction dbs as [|db dbs IH]; intros acc; cbn [dumpLoop].
- by apply keeps_readonly; [|always_auto].
- apply keeps_bind; [by apply keeps_readonly; [|always_auto]|]. intros _.
  apply keeps_bind; [apply backupDatabase_keeps|]. intros [e|]; [|apply IH].
  apply keeps_bind; [by apply keeps_readonly; [|always_auto]|]. intros _.
  apply IH.
Qed.

End stage_files.

Section dump_stage.

Variable env : Env.

(** One turn of the loop when the dump fails: the failure is logged, the
  list of files is passed on as it was. *)
Lemma dumpLoop_skip (config : Config) (db : string) (dbs acc : list string)
(w : World) (e : error) :
let r1 := backupDatabase env config db (backupFileOf config db) w in
let rest := dumpLoop env config dbs acc (worldOf r1) in
valueOf r1 = Some e ->
dumpLoop env config (db :: dbs) acc w =
(valueOf rest, worldOf rest,
 (announceDump config db :: traceOf r1 ++ reportDump db e :: traceOf rest)%list).
Proof.
cbn [dumpLoop].
unfold bind, fmt_Printf, log_Printf, emit, announceDump, reportDump, reportLine.
destruct (backupDatabase env config db (backupFileOf config db) w)
  as [[v w1] t1]. cbn. intros ->.
by destruct (dumpLoop env config dbs acc w1) as [[v2 w2] t2].
Qed.

(** One turn of the loop when the dump ends well. *)
Lemma dumpLoop_take (config : Config) (db : string) (dbs acc : list string)
(w : World) :
let r1 := backupDatabase env config db (backupFileOf config db) w in
let rest :=
  dumpLoop env config dbs (acc ++ [backupFileOf config db]) (worldOf r1) in
valueOf r1 = None ->
dumpLoop env config (db :: dbs) acc w =
(valueOf rest, worldOf rest,
 (announceDump config db :: traceOf r1 ++ traceOf rest)%list).
Proof.
cbn [dumpLoop]. unfold bind, fmt_Printf, log_Printf, emit, announceDump.
destruct (backupDatabase env config db (backupFileOf config db) w)
  as [[v w1] t1]. cbn. intros ->.
by destruct (dumpLoop env config dbs _ w1) as [[v2 w2] t2].
Qed.

Lemma backupDatabase_reads (config : Config) (db out : string) (w : World) :
let r := backupDatabase env config db out w in
attempts (traceOf r) = [out] /\
(valueOf r = None /\
   dumpedPaths (traceOf r) = [out] /\ dumped (traceOf r) = [db] \/
 (exists e, valueOf r = Some e) /\
   dumpedPaths (traceOf r) = [] /\ dumped (traceOf r) = []).
Proof.
intros r. subst r. pose proof (backupDatabase_run env config db out w) as H.
cbv zeta in H.
destruct (fault env (tick w) (OsCreate out)) as [cause|].
- rewrite H. cbn. split; [done|]. right. eauto.
- destruct H as [closed ->].
  unfold attempts, dumpedPaths, dumped, valueOf, traceOf. cbn.
  split; [done|].
  destruct (fault env (S (tick w)) _); cbn; [right; eauto|by left].
Qed.

(** The loop collects the output files of the dumps that ended well, in
  order, and tries every database of the list. *)
Lemma dumpLoop_collects (config : Config) (dbs acc : list string) (w : World) :
let r := dumpLoop env config dbs acc w in
valueOf r = (acc ++ dumpedPaths (traceOf r))%list /\
dumpedPaths (traceOf r) = map (backupFileOf config) (dumped (traceOf r)) /\
attempts (traceOf r) = map (backupFileOf config) dbs /\
sublist (dumped (traceOf r)) dbs.
Proof.
revert acc w. induction dbs as [|db dbs IH]; intros acc w.
- cbn. by rewrite app_nil_r.
- destruct (backupDatabase_reads config db (backupFileOf config db) w)
    as [Hatt [(Hv & Hp & Hd)|([e Hv] & Hp & Hd)]].
  + rewrite (dumpLoop_take _ _ _ _ _ Hv). cbv zeta.
    destruct (IH (acc ++ [backupFileOf config db])%list
                (worldOf (backupDatabase env config db
                            (backupFileOf config db) w)))
      as (IH1 & IH2 & IH3 & IH4).
    unfold dumpedPaths, dumped, attempts in *.
    cbn [valueOf worldOf traceOf fst snd].
    rewrite !omap_cons, !omap_app.
    cbn [dumpedOf dumpedDbOf attemptOf announceDump].
    rewrite Hatt, Hp, Hd, IH1, IH2, IH3. cbn.
    rewrite <- app_assoc. repeat split; try done. by constructor.
  + rewrite (dumpLoop_skip _ _ _ _ _ _ Hv). cbv zeta.
    destruct (IH acc
                (worldOf (backupDatabase env config db
                            (backupFileOf config db) w)))
      as (IH1 & IH2 & IH3 & IH4).
    unfold dumpedPaths, dumped, attempts in *.
    cbn [valueOf worldOf traceOf fst snd].
    rewrite !omap_cons, !omap_app, !omap_cons.
    cbn [dumpedOf dumpedDbOf attemptOf announceDump reportDump].
    rewrite Hatt, Hp, Hd, IH1, IH2, IH3. cbn.
    repeat split; try done. by constructor.
Qed.

End dump_stage.

Lemma contains_wrap_file (a file b cause : string) :
  contains (wrap (a +:+ file +:+ b) cause) file = true.
Proof. unfold wrap. rewrite !append_assoc. apply contains_append_r. Qed.

Lemma contains_wrap_file_end (a file cause : string) :
  contains (wrap (a +:+ file) cause) file = true.
Proof. unfold wrap. rewrite append_assoc. apply contains_append_r. Qed.

Section archive_stage.

Variable env : Env.

Variable targz : list TarEntry -> string.

Ltac loop_unfold :=
cbn [archiveLoop];
unfold bind, os_Stat, tar_FileInfoHeader, os_Open, io_Copy, perform,
  performOr, lookupFile, ret, valueOf, worldOf, traceOf;
cbn.

Lemma archiveLoop_step file files written opened w :
LoopStep env file files written opened w
  (archiveLoop env (file :: files) written opened w).
Proof.
loop_unfold.
destruct (fault env (tick w) (OsStat file)) eqn:?; cbn.
{ apply loop_stop; [done|repeat constructor|by intros ? ?%elem_of_nil|].
  left. apply contains_wrap_file_end. }
destruct (fs w !! file) as [content|] eqn:Hfile; cbn.
2:{ apply loop_stop; [done|repeat constructor|by intros ? ?%elem_of_nil|].
    left. apply contains_wrap_file_end. }
destruct (fault env (S (tick w)) _) eqn:?; cbn.
{ apply loop_stop; [done|repeat constructor|by intros ? ?%elem_of_nil|].
  left. apply contains_wrap_file_end. }
destruct (fault env (S (S (tick w))) _) eqn:?; cbn.
{ apply loop_stop; [done|repeat constructor|by intros ? ?%elem_of_nil|].
  right. by eexists. }
destruct (fault env (S (S (S (tick w)))) _) eqn:?; cbn.
{ apply loop_stop; [done|repeat constructor|by intros ? ?%elem_of_nil|].
  left. apply contains_wrap_file_end. }
rewrite Hfile. cbn.
destruct (fault env (S (S (S (S (tick w))))) _) eqn:?; cbn.
{ apply loop_stop; [done|repeat constructor| |].
  - intros path Hin. unfold archivedFrom in Hin. cbn in Hin.
    by apply list_elem_of_singleton in Hin.
  - left. apply contains_wrap_file. }
rewrite Hfile. cbn.
match goal with |- context [archiveLoop env files ?wr ?op ?w'] =>
  pose proof (loop_go env file files written opened w content w'
    [Called (OsStat file) None;
     Called (TarFileInfoHeader (filepath.Base file)) None;
     Called (TarWriteHeader (filepath.Base file)) None;
     Called (OsOpen file) None; Called (IoCopy file) None]) as Hgo
end.
cbv zeta in Hgo. unfold entryOf in Hgo. rewrite Hfile in Hgo. cbn in Hgo.
match type of Hgo with context [archiveLoop env files ?wr ?op ?w'] =>
  destruct (archiveLoop env files wr op w') as [[v w2] t2] end.
cbn in *. apply Hgo; try done. repeat constructor.
Qed.

(** A loop that ends well has added the entry of every file, in order,
  and every file was there. *)
Lemma archiveLoop_ok (files : list string) (written : list TarEntry)
(opened : list string) (w : World) (written' : list TarEntry)
(opened' : list string) :
valueOf (archiveLoop env files written opened w) = (None, written', opened') ->
written' = (written ++ map (entryOf (fs w)) files)%list /\
Forall (fun file => is_Some (fs w !! file)) files.
Proof.
revert written opened w.
induction files as [|file files IH]; intros written opened w.
- cbn. intros [= <- <-]. by rewrite app_nil_r.
- destruct (archiveLoop_step file files written opened w)
    as [e op w' t _ _ _ _|content w' t Hfile Hfs _ _ rest]; [done|].
  cbn [valueOf fst]. intros E. apply IH in E as [-> Hall].
  rewrite Hfs in *. rewrite <- app_assoc. split; [done|].
  constructor; [by rewrite Hfile|done].
Qed.

(** Only files of the list are copied into the archive. *)
Lemma archiveLoop_reads (files : list string) written opened (w : World) :
forall path,
  path ∈ archivedFrom (traceOf (archiveLoop env files written opened w)) ->
  path ∈ files.
Proof.
revert written opened w.
induction files as [|file files IH]; intros written opened w.
- cbn. by intros ? ?%elem_of_nil.
- destruct (archiveLoop_step file files written opened w)
    as [e op w' t Hfs _ Hin _|content w' t Hfile Hfs _ Hin rest].
  + cbn. intros path ->%Hin. by left.
  + cbn [traceOf snd].
    intros path. unfold archivedFrom in *. rewrite omap_app, Hin.
    intros [->%list_elem_of_singleton|?]%elem_of_app; [by left|].
    right. by eapply IH.
Qed.

(** A failed loop names the file it failed on, unless it failed writing
  that file's header. *)
Lemma archiveLoop_error (files : list string) written opened (w : World) e :
(valueOf (archiveLoop env files written opened w)).1.1 = Some e ->
exists file, file ∈ files /\ (namesFile e file \/ headerWriteError e).
Proof.
revert written opened w.
induction files as [|file files IH]; intros written opened w.
- done.
- destruct (archiveLoop_step file files written opened w)
    as [e' op w' t _ _ _ He|content w' t Hfile Hfs _ _ rest].
  + cbn. intros [= ->]. exists file. split; [by left|done].
  + cbn [valueOf fst]. intros E. apply IH in E as (f & Hin & Hf).
    exists f. split; [by right|done].
Qed.

End archive_stage.

Ltac not_in_list H :=
  repeat (apply elem_of_cons in H as [H|H]; [discriminate H|]);
  by apply elem_of_nil in H.

(** ** Whole runs of the archive and transfer stages *)

Section stage_runs.

Variable env : Env.

Variable targz : list TarEntry -> string.

(** What [archiveFiles] returns and leaves behind, by cases on the
  creation of the archive file. *)
Lemma archiveFiles_run (files : list string) (archivePath : string) (w : World) :
let r := archiveFiles env targz files archivePath w in
match fault env (tick w) (OsCreate archivePath) with
| Some cause =>
    r = (Some (wrap "failed to create archive" cause),
         {| fs := fs w; tick := S (tick w) |},
         [Called (OsCreate archivePath) (Some cause)])
| None =>
    let loop :=
      archiveLoop env files [] []
        {| fs := <[archivePath := EmptyString]> (fs w); tick := S (tick w) |} in
    exists tclose n c1 c2 c3,
      valueOf r = (valueOf loop).1.1 /\
      fs (worldOf r) =
        <[archivePath :=
            if allNone [(valueOf loop).1.1; c1; c2; c3]
            then targz (valueOf loop).1.2 else torn env n]> (fs w) /\
      traceOf r =
        (Called (OsCreate archivePath) None :: traceOf loop ++ tclose ++
         [Called TarClose c1; Called GzipClose c2;
          Called (FileClose archivePath) c3])%list /\
      Forall silent tclose /\
      (flushes env -> c1 = None /\ c2 = None /\ c3 = None)
end.
Proof.
intros r. subst r. unfold archiveFiles, os_Create.
unfold bind, perform, performOr, modify, stepNo, ret, setFs. cbn.
destruct (fault env (tick w) (OsCreate archivePath)) as [cause|]; cbn; [done|].
set (w1 := {| fs := <[archivePath:=EmptyString]> (fs w); tick := S (tick w) |}).
pose proof (archiveLoop_readonly env files [] [] w1) as Hro1.
destruct (archiveLoop env files [] [] w1) as [[[[err wr] op] w2] t2].
pose proof (closeAll_readonly env op w2) as Hro2.
pose proof (closeAll_silent env op w2) as Hsil.
destruct (closeAll env op w2) as [[u w3] t3].
unfold valueOf, worldOf, traceOf in *. cbn in *.
exists t3, (tick w3).
exists (match fault env (tick w3) TarClose with Some e => Some e | None => None end).
exists (match fault env (S (tick w3)) GzipClose with Some e => Some e | None => None end).
exists (match fault env (S (S (tick w3))) (FileClose archivePath) with Some e => Some e | None => None end).
split; [done|]. split.
{ rewrite Hro2, Hro1. by rewrite insert_insert_eq. }
split; [done|].
split; [done|].
intros Hfl. destruct (Hfl (tick w3)) as (-> & _ & _).
destruct (Hfl (S (tick w3))) as (_ & -> & _).
destruct (Hfl (S (S (tick w3)))) as (_ & _ & ->). done.
Qed.

(** The transfer ends well exactly when the store command does. *)
Lemma uploadToFTP_stored (config : Config) (localFile : string) (w : World) :
let r := uploadToFTP env config localFile w in
valueOf r = None <-> uploaded (traceOf r).
Proof.
intros r. subst r. unfold uploadToFTP, os_Open, uploaded.
unfold defer, bind, perform, performOr, lookupFile, ret, valueOf, traceOf. cbn.
destruct (fault env (tick w) _) eqn:?; cbn.
{ split; [done|]. intros (? & ? & Hin). not_in_list Hin. }
destruct (fault env (S (tick w)) _) eqn:?; cbn.
{ split; [done|]. intros (? & ? & Hin). not_in_list Hin. }
destruct (fault env (S (S (tick w))) _) eqn:?; cbn.
{ split; [done|]. intros (? & ? & Hin). not_in_list Hin. }
destruct (missing _ _ _) eqn:?; cbn.
{ split; [done|]. intros (? & ? & Hin). not_in_list Hin. }
destruct (fault env (S (S (S (tick w)))) _) eqn:?; cbn.
{ split; [done|]. intros (? & ? & Hin). not_in_list Hin. }
split; [|done]. intros _. eexists _, _. rewrite !elem_of_cons. eauto 10.
Qed.

End stage_runs.

Arguments archivePathOf : simpl never.

Arguments backupFileOf : simpl never.

Arguments filepath.Join : simpl never.

Arguments filepath.Base : simpl never.

Arguments filepath.Clean : simpl never.

Arguments Format : simpl never.

Arguments uploadToFTP : simpl never.

Arguments archiveFiles : simpl never.

Arguments loadConfig : simpl never.

(** ** A run of [main], stage by stage *)

Section main_run.

Variable env : Env.

Variable targz : list TarEntry -> string.

Lemma main_ran (w : World) : Ran env targz w (main env targz w).
Proof.
unfold main, bind, log_Fatalf, fmt_Printf, emit, ret.
destruct (loadConfig env "config.json" w) as [[[config [e|]] w1] t1] eqn:Hload.
{ cbn. by eapply ran_no_config. }
unfold perform, performOr. cbn.
destruct (fault env (tick w1) _) as [e|] eqn:Hdir; cbn.
{ by eapply ran_no_directory. }
fold (mkdirWorld w1).
destruct (dumpLoop env config (Databases config) [] (mkdirWorld w1))
  as [[files w3] t3] eqn:Hdump.
unfold now. cbn.
set (t := wallClock env (tick w3)).
set (w4 := {| fs := fs w3; tick := S (tick w3) |}).
destruct (archiveFiles env targz files (archivePathOf config t) w4)
  as [[[e|] w5] t5] eqn:Harch; cbn.
{ by eapply ran_no_archive. }
destruct (uploadToFTP env config (archivePathOf config t) w5)
  as [[[e|] w6] t6] eqn:Hup; cbn.
{ by eapply ran_no_upload. }
by eapply ran_completed.
Qed.

End main_run.

(** ** The codec for examples has the round-trip property *)

Module Framed_facts.

Import Framed.







End Framed_facts.

Arguments now : simpl never.

Lemma uploaded_app (a b : list Event) :
  uploaded (a ++ b) <-> uploaded a \/ uploaded b.
Proof.
  unfold uploaded. split.
  - intros (r & l & [?|?]%elem_of_app); eauto.
  - intros [(r & l & ?)|(r & l & ?)]; exists r, l; apply elem_of_app; auto.
Qed.

Lemma uploaded_cons (e : Event) (l : list Event) :
  uploaded (e :: l) <->
  (exists remote loc, e = Called (FtpStor remote loc) None) \/ uploaded l.
Proof.
  unfold uploaded. split.
  - intros (r & l' & [<-|?]%elem_of_cons); eauto.
  - intros [(r & l' & ->)|(r & l' & ?)]; exists r, l'; [by left|by right].
Qed.

Lemma uploaded_nil : ~ uploaded [].
Proof. by intros (r & l & ?%elem_of_nil). Qed.

(** What the equations of a run say about the traces of its stages. *)
Ltac stage_facts :=
  repeat match goal with
  | H : loadConfig ?env ?f ?w = (_, _, ?t) |- _ =>
      lazymatch goal with
      | _ : Forall silent t |- _ => fail
      | _ => let Hs := fresh "Hsilent" in
             pose proof (loadConfig_silent env f w) as Hs;
             rewrite H in Hs; cbn in Hs
      end
  | H : dumpLoop ?env ?c ?dbs ?acc ?w = (_, _, ?t) |- _ =>
      lazymatch goal with
      | _ : Forall dumpEvent t |- _ => fail
      | _ => let Hs := fresh "Hdumps" in
             pose proof (dumpLoop_events env c dbs acc w) as Hs;
             rewrite H in Hs; cbn in Hs
      end
  | H : archiveFiles ?env ?tg ?files ?p ?w = (_, _, ?t) |- _ =>
      lazymatch goal with
      | _ : Forall (archiveEvent p) t |- _ => fail
      | _ => let Hs := fresh "Harchs" in
             pose proof (archiveFiles_events env tg files p w) as Hs;
             rewrite H in Hs; cbn in Hs
      end
  | H : uploadToFTP ?env ?c ?p ?w = (_, _, ?t) |- _ =>
      lazymatch goal with
      | _ : Forall uploadEvent t |- _ => fail
      | _ => let Hs := fresh "Huploads" in
             let Hst := fresh "Hstored" in
             pose proof (uploadToFTP_events env c p w) as Hs;
             pose proof (uploadToFTP_stored env c p w) as Hst;
             rewrite H in Hs, Hst; cbn in Hs, Hst
      end
  end.

Ltac solve_last :=
  repeat first [rewrite last_app_cons | rewrite app_comm_cons]; done.

Ltac uploaded_split :=
  repeat first [rewrite uploaded_app | rewrite uploaded_cons].

Ltac not_uploaded :=
  uploaded_split;
  let H := fresh in
  intros H; repeat destruct H as [H|H];
  first [done | by destruct H as (? & ? & [=]) | by apply uploaded_nil in H].

(** ** The transfer stage closes its session *)

Section claims.

Variable env : Env.

Variable targz : list TarEntry -> string.

(** Claim C4.  Whenever the control connection has been opened, the
  transfer operation closes the session exactly once, as the last thing
  it does, whether the login, the opening of the local file and the
  store command succeed or fail. *)
Theorem quit_once (config : Config) (localFile : string) (w : World) :
fault env (tick w) (FtpDial (FTPHost config)) = None ->
let r := uploadToFTP env config localFile w in
quits (traceOf r) = 1 /\ exists q, last (traceOf r) = Some (Called FtpQuit q).
Proof.
intros Hdial r. subst r. unfold uploadToFTP, os_Open.
unfold defer, bind, perform, performOr, lookupFile, ret, traceOf. cbn.
rewrite Hdial. cbn.
destruct (fault env (S (tick w)) _) eqn:Hlogin; cbn; [eauto|].
destruct (fault env (S (S (tick w))) _) eqn:Hopen; cbn; [eauto|].
destruct (missing _ _ _) eqn:Hmiss; cbn; [eauto|].
destruct (fault env (S (S (S (tick w)))) _) eqn:Hstor; cbn; eauto.
Qed.

Lemma firstFailure_ran (w : World) :
let r := main env targz w in
match valueOf (firstFailure env targz w) with
| None => valueOf r = 0 /\ uploaded (traceOf r)
| Some (stage, e) =>
    valueOf r = 1 /\ ~ uploaded (traceOf r) /\
    last (traceOf r) = Some (Logged (fatalContext stage +:+ e))
end.
Proof.
cbv zeta. unfold firstFailure, bind, ret, valueOf.
destruct (main_ran env targz w)
  as [config e w1 t1 Hload
     |config w1 t1 e Hload Hdir
     |config w1 t1 files w3 t3 t w4 e w5 t5 Hload Hdir Hdump Hnow Harch
     |config w1 t1 files w3 t3 t w4 w5 t5 e w6 t6 Hload Hdir Hdump Hnow Harch Hup
     |config w1 t1 files w3 t3 t w4 w5 t5 w6 t6 Hload Hdir Hdump Hnow Harch Hup];
  stage_facts; rewrite Hload; cbn.
- split; [done|]. split; [|solve_last].
  apply silent_reads in Hsilent as (_ & _ & _ & _ & _ & _ & _ & _ & ?).
  not_uploaded.
- unfold perform, performOr. cbn. rewrite Hdir. cbn.
  split; [done|]. split.
  + apply silent_reads in Hsilent as (_ & _ & _ & _ & _ & _ & _ & _ & ?).
    not_uploaded.
  + solve_last.
- unfold perform, performOr. cbn. rewrite Hdir. cbn.
  fold (mkdirWorld w1). rewrite Hdump, Hnow, Harch. cbn.
  split; [done|]. split.
  + apply silent_reads in Hsilent as (_ & _ & _ & _ & _ & _ & _ & _ & ?).
    apply dump_reads in Hdumps as (_ & _ & _ & ? & _).
    apply archive_reads in Harchs as (_ & _ & _ & _ & _ & ? & _).
    not_uploaded.
  + solve_last.
- unfold perform, performOr. cbn. rewrite Hdir. cbn.
  fold (mkdirWorld w1). rewrite Hdump, Hnow, Harch. cbn. rewrite Hup. cbn.
  split; [done|]. split.
  + apply silent_reads in Hsilent as (_ & _ & _ & _ & _ & _ & _ & _ & ?).
    apply dump_reads in Hdumps as (_ & _ & _ & ? & _).
    apply archive_reads in Harchs as (_ & _ & _ & _ & _ & ? & _).
    assert (~ uploaded t6) by (by intros ?%Hstored).
    not_uploaded.
  + solve_last.
- unfold perform, performOr. cbn. rewrite Hdir. cbn.
  fold (mkdirWorld w1). rewrite Hdump, Hnow, Harch. cbn. rewrite Hup. cbn.
  split; [done|].
  uploaded_split. do 7 right. left. by apply Hstored.
Qed.

(** Claim C3.  A run exits with status 0 exactly when no stage fails,
  which is exactly when the archive has been stored on the server; a
  failure of the configuration load, of the creation of the backup
  directory, of the archive or of the transfer makes it exit with status
  1 after logging the message of that stage.  Dumps that fail are not
  among the stages: they never change the exit status. *)
Theorem exit_status (w : World) :
let r := main env targz w in
let failure := valueOf (firstFailure env targz w) in
(valueOf r = 0 <-> failure = None) /\
(valueOf r = 0 <-> uploaded (traceOf r)) /\
(forall stage e,
   failure = Some (stage, e) ->
   valueOf r = 1 /\
   last (traceOf r) = Some (Logged (fatalContext stage +:+ e))).
Proof.
cbv zeta. pose proof (firstFailure_ran w) as H. cbv zeta in H.
destruct (valueOf (firstFailure env targz w)) as [[stage e]|].
- destruct H as (Hv & Hup & Hlast). rewrite Hv.
  repeat split; try done. by simplify_eq.
- destruct H as (Hv & Hup). rewrite Hv. repeat split; done.
Qed.

(** Claim C9.  When the backup directory cannot be created the run exits
  with status 1 having started no dump process and created no file; the
  files are as they were, and the last thing logged is the failure. *)
Theorem no_directory_no_dump (w : World) (config : Config) (w1 : World)
(t1 : list Event) (e : error) :
loadConfig env "config.json" w = ((config, None), w1, t1) ->
fault env (tick w1) (OsMkdirAll (BackupDirectory config)) = Some e ->
let r := main env targz w in
valueOf r = 1 /\
filter isDumpWork (traceOf r) = [] /\
fs (worldOf r) = fs w /\
last (traceOf r) =
  Some (Logged ("failed to create directory for backups: " +:+ e)).
Proof.
intros Hload Hdir. cbv zeta.
destruct (main_ran env targz w)
  as [config' e' w1' t1' Hload'
     |config' w1' t1' e' Hload' Hdir'
     |config' w1' t1' files w3 t3 t w4 e' w5 t5 Hload' Hdir' Hdump Hnow Harch
     |config' w1' t1' files w3 t3 t w4 w5 t5 e' w6 t6 Hload' Hdir' Hdump Hnow Harch Hup
     |config' w1' t1' files w3 t3 t w4 w5 t5 w6 t6 Hload' Hdir' Hdump Hnow Harch Hup];
  rewrite Hload in Hload'; simplify_eq.
stage_facts. cbn. split; [done|].
pose proof (loadConfig_readonly env "config.json" w) as Hro.
rewrite Hload in Hro. cbn in Hro.
repeat split; [|done|solve_last].
rewrite filter_app. rewrite (filter_none isDumpWork t1'); [done|].
eapply Forall_impl; [exact Hsilent|]. by intros [[]| | |].
Qed.

End claims.

(** ** The dump loop goes on after a failure *)

Lemma contains_append_l (a s sub : string) :
  contains s sub = true -> contains (a +:+ s) sub = true.
Proof.
  intros H. induction a as [|c a IH]; [done|].
  change (String c a +:+ s) with (String c (a +:+ s)).
  cbn [contains]. rewrite IH. apply orb_true_r.
Qed.

Section dump_claims.

Variable env : Env.

Lemma backupDatabase_cause (config : Config) (db out : string) (w : World) (e : error) :
valueOf (backupDatabase env config db out w) = Some e ->
exists c cause,
  Called c (Some cause) ∈ traceOf (backupDatabase env config db out w) /\
  contains e cause = true.
Proof.
pose proof (backupDatabase_run env config db out w) as H. cbv zeta in H.
destruct (fault env (tick w) (OsCreate out)) as [cause|] eqn:Hc.
- rewrite H. cbn. intros [= <-]. exists (OsCreate out), cause.
  split; [by left|apply contains_wrap_cause].
- destruct H as [closed ->]. cbn.
  destruct (fault env (S (tick w)) _) as [cause|] eqn:Hrun; [|done].
  intros [= <-]. exists (CmdRun (mysqldumpArgv config db) out), cause.
  split; [right; by left|apply contains_wrap_cause].
Qed.

(** Claim C2.  A dump that fails does not end the run: the failure is
  logged in a line that holds the name of the database and the cause
  reported by the call that failed, the output file is not added to the
  collected list, and the loop goes on to try every database that is
  left.  Whatever fails, the loop tries every database of its list. *)
Theorem dump_failure_skipped (config : Config) (db : string)
(dbs acc : list string) (w : World) (e : error) :
let out := backupFileOf config db in
let r1 := backupDatabase env config db out w in
valueOf r1 = Some e ->
let r := dumpLoop env config (db :: dbs) acc w in
let rest := dumpLoop env config dbs acc (worldOf r1) in
(exists c cause,
   Called c (Some cause) ∈ traceOf r1 /\
   contains (reportLine db e) cause = true) /\
contains (reportLine db e) db = true /\
traceOf r =
  (announceDump config db :: traceOf r1 ++
   Logged (reportLine db e) :: traceOf rest)%list /\
valueOf r = valueOf rest /\
valueOf r = (acc ++ dumpedPaths (traceOf rest))%list /\
attempts (traceOf rest) = map (backupFileOf config) dbs /\
(forall (all files : list string) (w0 : World),
   attempts (traceOf (dumpLoop env config all files w0)) =
   map (backupFileOf config) all).
Proof.
intros out r1 He r rest. subst out r1 r rest.
rewrite (dumpLoop_skip env config db dbs acc w e He). cbv zeta.
cbn [valueOf traceOf fst snd].
destruct (dumpLoop_collects env config dbs acc
            (worldOf (backupDatabase env config db (backupFileOf config db) w)))
  as (Hv & _ & Hatt & _).
destruct (backupDatabase_cause config db _ w e He) as (c & cause & Hin & Hcause).
repeat split; try done.
- exists c, cause. split; [done|]. unfold reportLine.
  rewrite <- !append_assoc. by apply contains_append_l.
- unfold reportLine. apply contains_append_r.
- intros all files w0.
  by destruct (dumpLoop_collects env config all files w0) as (_ & _ & ? & _).
Qed.

End dump_claims.

(** ** Files on disk after a run *)

Ltac main_cases env targz w :=
  destruct (main_ran env targz w)
    as [config' e' w1' t1' Hload'
       |config' w1' t1' e' Hload' Hdir'
       |config' w1' t1' files w3 t3 t w4 e' w5 t5 Hload' Hdir' Hdump Hnow Harch
       |config' w1' t1' files w3 t3 t w4 w5 t5 e' w6 t6 Hload' Hdir' Hdump Hnow Harch Hup
       |config' w1' t1' files w3 t3 t w4 w5 t5 w6 t6 Hload' Hdir' Hdump Hnow Harch Hup];
  stage_facts.

(** Rewriting a reader over the trace of a run into its value on the
    traces of the stages. *)
Ltac reads_split :=
  unfold dumpedPaths, dumped, attempts, created, stamps, archivedFrom in *;
  cbn [traceOf snd];
  repeat first [rewrite omap_app | rewrite omap_cons];
  cbn [dumpedOf dumpedDbOf attemptOf createdOf stampOf readsOf
       announceArchive announceUpload announceDone].

Section file_claims.

Variable env : Env.

Variable targz : list TarEntry -> string.

Lemma keeps_quiet {A : Type} (P : Event -> Prop) (m : M A) :
(forall e, P e -> createdOf e = None) -> readonly m -> always P m -> keeps m.
Proof.
intros HP Hro Hal. apply keeps_readonly; [done|].
intros w. eapply Forall_impl; [apply Hal|]. done.
Qed.

Lemma silent_not_created (e : Event) : silent e -> createdOf e = None.
Proof. by destruct e as [[]| | |]. Qed.

Lemma uploadEvent_not_created (e : Event) : uploadEvent e -> createdOf e = None.
Proof. by destruct e as [[]| | |]. Qed.

Lemma archiveFiles_keeps (files : list string) (archivePath : string) :
keeps (archiveFiles env targz files archivePath).
Proof.
intros w path. pose proof (archiveFiles_run env targz files archivePath w) as H.
cbv zeta in H.
destruct (fault env (tick w) (OsCreate archivePath)) as [cause|].
- rewrite H. cbn. split; [done|]. by intros ?%elem_of_nil.
- destruct H as (tclose & n & c1 & c2 & c3 & _ & Hfs & Htr & Hsil & _).
  rewrite Hfs, Htr. unfold created.
  rewrite omap_cons, !omap_app. cbn [createdOf].
  pose proof (archiveLoop_events env files [] []
    {| fs := <[archivePath:=EmptyString]> (fs w); tick := S (tick w) |}) as Hloop.
  apply read_reads in Hloop as (_ & _ & _ & Hc & _). unfold created in Hc.
  rewrite Hc. apply silent_reads in Hsil as (_ & _ & _ & Hc' & _).
  unfold created in Hc'. rewrite Hc'. cbn. split.
  + intros Hne. rewrite lookup_insert_ne; [done|]. intros ->. apply Hne. by left.
  + intros ->%list_elem_of_singleton. rewrite lookup_insert_eq. eauto.
Qed.

Lemma archiveFiles_reads (files : list string) (archivePath : string) (w : World) :
forall path,
  path ∈ archivedFrom (traceOf (archiveFiles env targz files archivePath w)) ->
  path ∈ files.
Proof.
intros path. pose proof (archiveFiles_run env targz files archivePath w) as H.
cbv zeta in H.
destruct (fault env (tick w) (OsCreate archivePath)) as [cause|].
- rewrite H. cbn. by intros ?%elem_of_nil.
- destruct H as (tclose & n & c1 & c2 & c3 & _ & _ & Htr & Hsil & _).
  rewrite Htr. unfold archivedFrom. rewrite omap_cons, !omap_app. cbn [readsOf].
  apply silent_reads in Hsil as (_ & _ & _ & _ & _ & Hc' & _).
  unfold archivedFrom in Hc'. rewrite Hc'. cbn. rewrite app_nil_r.
  apply archiveLoop_reads.
Qed.

Lemma main_keeps : keeps (main env targz).
Proof.
unfold main.
apply keeps_bind.
{ eapply keeps_quiet; [apply silent_not_created|apply loadConfig_readonly|apply loadConfig_silent]. }
intros [config [e|]].
{ by apply keeps_readonly; unfold log_Fatalf; [readonly_auto|always_auto]. }
apply keeps_bind.
{ by apply keeps_readonly; [readonly_auto|always_auto]. }
intros [e|].
{ by apply keeps_readonly; unfold log_Fatalf; [readonly_auto|always_auto]. }
apply keeps_bind; [apply dumpLoop_keeps|]. intros files.
apply keeps_bind.
{ by apply keeps_readonly; [readonly_auto|always_auto]. }
intros t. cbv zeta.
apply keeps_bind.
{ by apply keeps_readonly; [readonly_auto|always_auto]. }
intros _. apply keeps_bind; [apply archiveFiles_keeps|].
intros [e|].
{ by apply keeps_readonly; unfold log_Fatalf; [readonly_auto|always_auto]. }
apply keeps_bind.
{ by apply keeps_readonly; [readonly_auto|always_auto]. }
intros _. apply keeps_bind.
{ eapply keeps_quiet; [apply uploadEvent_not_created|apply uploadToFTP_readonly|apply uploadToFTP_events]. }
intros [e|].
{ by apply keeps_readonly; unfold log_Fatalf; [readonly_auto|always_auto]. }
by apply keeps_readonly; [readonly_auto|always_auto].
Qed.

Lemma main_archives_dumped (w : World) (path : string) :
path ∈ archivedFrom (traceOf (main env targz w)) ->
path ∈ dumpedPaths (traceOf (main env targz w)).
Proof.
main_cases env targz w.
- apply silent_reads in Hsilent as (_ & _ & _ & _ & _ & Hr & _).
  reads_split. rewrite Hr. by intros ?%elem_of_nil.
- apply silent_reads in Hsilent as (_ & _ & _ & _ & _ & Hr & _).
  reads_split. rewrite Hr. by intros ?%elem_of_nil.
- apply silent_reads in Hsilent as (_ & _ & _ & _ & _ & Hr & _).
  apply dump_reads in Hdumps as (_ & Hr3 & _).
  pose proof (archiveFiles_reads files (archivePathOf config' t) w4) as Hr5.
  pose proof (dumpLoop_collects env config' (Databases config') [] (mkdirWorld w1')) as (Hfiles & _).
  rewrite Harch in Hr5. rewrite Hdump in Hfiles. cbn in Hr5, Hfiles.
  reads_split. rewrite Hr, Hr3. cbn. rewrite app_nil_r.
  intros Hin%Hr5. rewrite Hfiles in Hin. rewrite !elem_of_app. auto.
- apply silent_reads in Hsilent as (_ & _ & _ & _ & _ & Hr & _).
  apply dump_reads in Hdumps as (_ & Hr3 & _).
  apply upload_reads in Huploads as (_ & _ & _ & _ & _ & Hr6 & _).
  pose proof (archiveFiles_reads files (archivePathOf config' t) w4) as Hr5.
  pose proof (dumpLoop_collects env config' (Databases config') [] (mkdirWorld w1')) as (Hfiles & _).
  rewrite Harch in Hr5. rewrite Hdump in Hfiles. cbn in Hr5, Hfiles.
  reads_split. rewrite Hr, Hr3, Hr6. cbn. rewrite app_nil_r.
  intros Hin%Hr5. rewrite Hfiles in Hin. rewrite !elem_of_app. auto.
- apply silent_reads in Hsilent as (_ & _ & _ & _ & _ & Hr & _).
  apply dump_reads in Hdumps as (_ & Hr3 & _).
  apply upload_reads in Huploads as (_ & _ & _ & _ & _ & Hr6 & _).
  pose proof (archiveFiles_reads files (archivePathOf config' t) w4) as Hr5.
  pose proof (dumpLoop_collects env config' (Databases config') [] (mkdirWorld w1')) as (Hfiles & _).
  rewrite Harch in Hr5. rewrite Hdump in Hfiles. cbn in Hr5, Hfiles.
  reads_split. rewrite Hr, Hr3, Hr6. cbn. rewrite app_nil_r.
  intros Hin%Hr5. rewrite Hfiles in Hin. rewrite !elem_of_app. auto.
Qed.


End file_claims.

Lemma Base_backupFileOf (config : Config) (db : string) :
  filepath.Base (backupFileOf config db) = entryNameOf db.
Proof.
  unfold backupFileOf, entryNameOf.
  rewrite <- (filepath_facts.afterLastSep_append db ".sql") by done.
  apply filepath_facts.Base_Join.
  rewrite filepath_facts.afterLastSep_append by done.
  apply filepath_facts.plain_append; [apply filepath_facts.hasSep_afterLastSep|done|cbn; lia].
Qed.


Lemma append_inj_head (a b1 b2 : string) : a +:+ b1 = a +:+ b2 -> b1 = b2.
Proof. apply String.app_inj. Qed.

Lemma announceUpload_inj (p q : string) :
  announceUpload p = announceUpload q -> p = q.
Proof.
  unfold announceUpload. intros [= H%append_inj_head].
  by apply append_inj_tail in H as [-> _].
Qed.

Lemma announceArchive_inj (p q : string) :
  announceArchive p = announceArchive q -> p = q.
Proof.
  unfold announceArchive. intros [= H%append_inj_head].
  by apply append_inj_tail in H as [-> _].
Qed.

Lemma announce_distinct (p q : string) : announceArchive p <> announceUpload q.
Proof. unfold announceArchive, announceUpload. by intros [=]. Qed.

Lemma dump_line_not_upload (rest p : string) :
  Printed ("creating database backup " +:+ rest) <> announceUpload p.
Proof. unfold announceUpload. by intros [=]. Qed.

Lemma dump_line_not_archive (rest p : string) :
  Printed ("creating database backup " +:+ rest) <> announceArchive p.
Proof.
  unfold announceArchive. by intros [=].
Qed.

Lemma dump_no_announce (tr : list Event) (p : string) :
  Forall dumpEvent tr -> (announceArchive p ∉ tr) /\ (announceUpload p ∉ tr).
Proof.
  intros (_ & _ & _ & _ & Hp)%dump_reads.
  split; intros [rest Hin]%Hp.
  - unfold announceArchive in Hin. by simplify_eq.
  - unfold announceUpload in Hin. by simplify_eq.
Qed.

Tactic Notation "elem_split" "in" hyp(H) :=
  repeat first [rewrite elem_of_app in H | rewrite elem_of_cons in H
               | rewrite elem_of_nil in H].

Tactic Notation "elem_split" :=
  repeat first [rewrite elem_of_app | rewrite elem_of_cons
               | rewrite elem_of_nil].

Ltac or_cases H :=
  repeat match type of H with _ \/ _ => destruct H as [H|H] end.

(** A line that a stage cannot have printed. *)
Ltac absurd_elem :=
  match goal with
  | H : False |- _ => destruct H
  | H : _ ∈ ?t, Hp : forall line, Printed line ∉ ?t |- _ => by apply Hp in H
  | H : announceArchive ?p ∈ ?t, Hd : Forall dumpEvent ?t |- _ =>
      by apply (dump_no_announce t p Hd) in H
  | H : announceUpload ?p ∈ ?t, Hd : Forall dumpEvent ?t |- _ =>
      by apply (dump_no_announce t p Hd) in H
  | H : announceArchive _ = announceUpload _ |- _ =>
      by apply announce_distinct in H
  | H : announceUpload _ = announceArchive _ |- _ =>
      symmetry in H; by apply announce_distinct in H
  | H : _ = _ |- _ => discriminate H
  end.

(** A reader over the trace of a run, from its values on the stages. *)
Ltac solve_reads :=
  reads_split;
  repeat match goal with H : omap _ _ = [] |- _ => rewrite H end;
  repeat match goal with H : _ = omap _ _ |- _ => rewrite H end;
  cbn; rewrite ?app_nil_r; done.

(** What the classes of the events of the stages say to the readers. *)
Ltac trace_facts :=
  repeat match goal with
  | H : Forall silent ?t |- _ =>
      apply silent_reads in H as (? & ? & ? & ? & ? & ? & ? & ? & ?)
  | H : Forall (archiveEvent _) ?t |- _ =>
      apply archive_reads in H as (? & ? & ? & ? & ? & ? & ?)
  | H : Forall uploadEvent ?t |- _ =>
      apply upload_reads in H as (? & ? & ? & ? & ? & ? & ?)
  | H : Forall dumpEvent ?t |- _ =>
      lazymatch goal with
      | _ : stamps t = [] |- _ => fail
      | _ => pose proof (dump_reads t H) as (? & ? & ? & ? & ?)
      end
  end.

Section archive_runs.

Variable env : Env.

Variable targz : list TarEntry -> string.

(** [archiveFiles] that ends well, in an environment where closing never
  fails, leaves in the archive file the stream of one entry per input
  file, in order: base name, size and bytes of the file. *)
Lemma archiveFiles_ok (files : list string) (archivePath : string) (w : World) :
flushes env ->
let r := archiveFiles env targz files archivePath w in
valueOf r = None ->
let before := <[archivePath := EmptyString]> (fs w) in
fs (worldOf r) = <[archivePath := targz (map (entryOf before) files)]> (fs w) /\
Forall (fun file => is_Some (before !! file)) files.
Proof.
intros Hfl r Hnone before. subst r before.
pose proof (archiveFiles_run env targz files archivePath w) as H. cbv zeta in H.
destruct (fault env (tick w) (OsCreate archivePath)) as [cause|].
{ by rewrite H in Hnone. }
destruct H as (tclose & n & c1 & c2 & c3 & Hv & Hfs & _ & _ & Hc).
destruct (Hc Hfl) as (-> & -> & ->). rewrite Hv in Hnone.
set (w1 := {| fs := <[archivePath:=EmptyString]> (fs w); tick := S (tick w) |}) in *.
destruct (valueOf (archiveLoop env files [] [] w1)) as [[err written] opened] eqn:Hloop.
cbn in Hnone. subst err.
apply archiveLoop_ok in Hloop as [-> Hall]. cbn in Hfs. by rewrite Hfs.
Qed.


(** A run that has announced the archive, or the transfer, of [p] has
  loaded the configuration and gone through the dump loop, and [p] is
  the archive path made from the clock read after the loop; what the run
  leaves on disk is what the archive stage leaves, and it goes on to the
  transfer exactly when the archive stage ends well. *)
Lemma main_archive_stage (w : World) (p : string) :
announceArchive p ∈ traceOf (main env targz w) \/
announceUpload p ∈ traceOf (main env targz w) ->
exists config w1 t1 files w3 t3 t w4,
  loadConfig env "config.json" w = ((config, None), w1, t1) /\
  dumpLoop env config (Databases config) [] (mkdirWorld w1) = (files, w3, t3) /\
  now env w3 = (t, w4, [Now t]) /\
  p = archivePathOf config t /\
  dumped (traceOf (main env targz w)) = dumped t3 /\
  dumpedPaths (traceOf (main env targz w)) = files /\
  files = map (backupFileOf config) (dumped t3) /\
  sublist (dumped t3) (Databases config) /\
  stamps (traceOf (main env targz w)) = [t] /\
  fs (worldOf (main env targz w)) =
    fs (worldOf (archiveFiles env targz files p w4)) /\
  (announceUpload p ∈ traceOf (main env targz w) <->
   valueOf (archiveFiles env targz files p w4) = None).
Proof.
main_cases env targz w; cbn [traceOf worldOf snd fst]; trace_facts;
  intros Hin;
  try (destruct (dumpLoop_collects env config' (Databases config') []
                   (mkdirWorld w1')) as (Hfiles & Hpaths & _ & Hsub);
       rewrite Hdump in Hfiles, Hpaths, Hsub;
       cbn [valueOf traceOf fst snd app] in Hfiles, Hpaths, Hsub).
- exfalso. destruct Hin as [Hin|Hin]; elem_split in Hin;
    or_cases Hin; absurd_elem.
- exfalso. destruct Hin as [Hin|Hin]; elem_split in Hin;
    or_cases Hin; absurd_elem.
- assert (p = archivePathOf config' t) as ->.
  { destruct Hin as [Hin|Hin]; elem_split in Hin;
      or_cases Hin; try absurd_elem.
    by apply announceArchive_inj in Hin. }
  exists config', w1', t1', files, w3, t3, t, w4.
  repeat split; try done; try (by rewrite Harch); try (by rewrite Hfiles, Hpaths);
    try solve_reads.
  intros Hup. exfalso. elem_split in Hup. or_cases Hup; absurd_elem.
- pose proof (uploadToFTP_readonly env config' (archivePathOf config' t) w5) as Hro.
  rewrite Hup in Hro. cbn in Hro.
  assert (p = archivePathOf config' t) as ->.
  { destruct Hin as [Hin|Hin]; elem_split in Hin;
      or_cases Hin; try absurd_elem.
    - by apply announceArchive_inj in Hin.
    - by apply announceUpload_inj in Hin. }
  exists config', w1', t1', files, w3, t3, t, w4.
  repeat split; try done; try (by rewrite Harch); try (by rewrite Hfiles, Hpaths);
    try solve_reads.
  intros _. elem_split. auto 10.
- pose proof (uploadToFTP_readonly env config' (archivePathOf config' t) w5) as Hro.
  rewrite Hup in Hro. cbn in Hro.
  assert (p = archivePathOf config' t) as ->.
  { destruct Hin as [Hin|Hin]; elem_split in Hin;
      or_cases Hin; try absurd_elem.
    - by apply announceArchive_inj in Hin.
    - by apply announceUpload_inj in Hin. }
  exists config', w1', t1', files, w3, t3, t, w4.
  repeat split; try done; try (by rewrite Harch); try (by rewrite Hfiles, Hpaths);
    try solve_reads.
  intros _. elem_split. auto 10.
Qed.

End archive_runs.

Section archive_claims.

Variable env : Env.

Variable targz : list TarEntry -> string.

Variable untargz : string -> option (list TarEntry).

Hypothesis codec : forall es, untargz (targz es) = Some es.




End archive_claims.

Section archive_files.

Variable env : Env.

Variable targz : list TarEntry -> string.

Variable untargz : string -> option (list TarEntry).

Hypothesis codec : forall es, untargz (targz es) = Some es.

(** The archive of files that are not the archive file itself, made in an
  environment where closing never fails, unpacks to the bytes of the
  files, each under its base name. *)
Lemma archive_roundtrip (files : list string) (archivePath : string) (w : World) :
flushes env ->
archivePath ∉ files ->
let r := archiveFiles env targz files archivePath w in
valueOf r = None ->
exists es,
  unpacked untargz (worldOf r) archivePath = Some es /\
  Forall2 (fun file e =>
             fs w !! file = Some (Data e) /\
             entryName e = filepath.Base file) files es.
Proof.
intros Hfl Hnot r Hnone. subst r.
destruct (archiveFiles_ok env targz files archivePath w Hfl Hnone) as [Hfs Hall].
eexists. unfold unpacked. rewrite Hfs, lookup_insert_eq, codec. split; [done|].
apply Forall2_fmap_r, Forall_Forall2_diag.
apply Forall_forall. intros file Hin.
apply (proj1 (Forall_forall _ _) Hall) in Hin as Hsome.
assert (file <> archivePath) as Hne by (by intros ->).
cbn beta in Hsome. assert (archivePath <> file) as Hne' by done.
rewrite lookup_insert_ne in Hsome; [|done]. destruct Hsome as [content Hc].
unfold compose, entryOf, entryName. cbn. rewrite lookup_insert_ne; [|done].
by rewrite Hc.
Qed.

(** An archive stage that fails says which file it failed on, unless it
  failed creating the archive or writing a header; once the archive
  file has been created it stays on disk. *)
Lemma archiveFiles_error (files : list string) (archivePath : string) (w : World)
(e : error) :
let r := archiveFiles env targz files archivePath w in
valueOf r = Some e ->
(exists cause, e = wrap "failed to create archive" cause /\
               fs (worldOf r) = fs w) \/
(is_Some (fs (worldOf r) !! archivePath) /\
 exists file, file ∈ files /\ (namesFile e file \/ headerWriteError e)).
Proof.
intros r He. subst r.
pose proof (archiveFiles_run env targz files archivePath w) as H. cbv zeta in H.
destruct (fault env (tick w) (OsCreate archivePath)) as [cause|].
{ rewrite H in *. cbn in *. left. exists cause. by simplify_eq. }
destruct H as (tclose & n & c1 & c2 & c3 & Hv & Hfs & _).
right. rewrite Hfs, lookup_insert_eq. split; [eauto|].
rewrite Hv in He. by apply archiveLoop_error in He.
Qed.

End archive_files.

(** Claim C7, at a failing input.  The gzip writer fails to close, the
    error is dropped with the result of the deferred call, and
    [archiveFiles] returns [nil]; the file it leaves does not unpack, and
    is not the stream of the entry of the dump file. *)
Theorem close_error_dropped :
  let r := archiveFiles (Sample.failing diskFull) Framed.targz
             ["/var/backups/app.sql"] "/var/backups/backup.tar.gz" dumpWorld in
  valueOf r = None /\
  unpacked Framed.untargz (worldOf r) "/var/backups/backup.tar.gz" = None /\
  fs (worldOf r) !! "/var/backups/backup.tar.gz" <>
    Some (Framed.targz [entryOf (fs dumpWorld) "/var/backups/app.sql"]).
Proof. vm_compute. by repeat split. Qed.

(** Claim C5, at a failing input.  The header of the entry of
    [/var/backups/app.sql] cannot be written: [archiveFiles] stops with an
    error that does not hold the path of that file.  The archive file
    stays on disk. *)
Theorem header_error_unnamed :
  let r := archiveFiles (Sample.failing headerFails) Framed.targz
             ["/var/backups/app.sql"] "/var/backups/backup.tar.gz" dumpWorld in
  valueOf r =
    Some "failed to write file header into archive: write /var/backups/backup.tar.gz: no space left on device" /\
  (forall e, valueOf r = Some e -> contains e "/var/backups/app.sql" = false) /\
  is_Some (fs (worldOf r) !! "/var/backups/backup.tar.gz").
Proof.
  vm_compute. repeat split; [by intros e [= <-]|eauto].
Qed.

Lemma atoi_decimal (n : nat) : atoi (decimal n) = Some n.
Proof.
  unfold atoi, decimal. rewrite NilEmpty.usu. cbn.
  by rewrite DecimalNat.Unsigned.of_to.
Qed.

Lemma atoi_zeros (k : nat) (s : string) : atoi (zeros k +:+ s) = atoi s.
Proof.
  induction k as [|k IH]; [done|].
  change (zeros (S k) +:+ s) with (String "0"%char (zeros k +:+ s)).
  rewrite <- IH. unfold atoi. cbn [NilEmpty.uint_of_string].
  by destruct (NilEmpty.uint_of_string (zeros k +:+ s)).
Qed.

Lemma appendInt_inj (width x y : nat) : appendInt x width = appendInt y width -> x = y.
Proof.
  intros H. apply (f_equal atoi) in H. unfold appendInt in H.
  rewrite !atoi_zeros, !atoi_decimal in H. by simplify_eq.
Qed.

Lemma appendInt_length2 (x : nat) : x < 100 -> String.length (appendInt x 2) = 2.
Proof.
  intros Hx. do 100 (destruct x as [|x]; [reflexivity|]). lia.
Qed.

Lemma hasSep_zeros (k : nat) : hasSep (zeros k) = false.
Proof. induction k; [done|]. by cbn. Qed.

Lemma hasSep_decimal (n : nat) : hasSep (decimal n) = false.
Proof.
  unfold decimal. generalize (Nat.to_uint n) as d.
  induction d; cbn; by rewrite ?IHd.
Qed.

Lemma hasSep_appendInt (x width : nat) : hasSep (appendInt x width) = false.
Proof. unfold appendInt. by rewrite hasSep_append, hasSep_zeros, hasSep_decimal. Qed.

Lemma hasSep_Format (t : Time) : hasSep (Format t) = false.
Proof. unfold Format. by rewrite !hasSep_append, !hasSep_appendInt. Qed.

Lemma Format_inj (t1 t2 : Time) :
  validTime t1 -> validTime t2 -> Format t1 = Format t2 -> t1 = t2.
Proof.
  intros (HM1 & HD1 & Hh1 & Hm1 & Hs1) (HM2 & HD2 & Hh2 & Hm2 & Hs2).
  unfold Format. intros H.
  apply append_inj_tail in H as [HY H].
  2:{ rewrite !append_length, !appendInt_length2 by done. done. }
  apply append_inj_tail in H as [HM H].
  2:{ rewrite !append_length, !appendInt_length2 by done. done. }
  apply append_inj_tail in H as [HD H].
  2:{ rewrite !append_length, !appendInt_length2 by done. done. }
  apply append_inj_tail in H as [_ H].
  2:{ rewrite !append_length, !appendInt_length2 by done. done. }
  apply append_inj_tail in H as [Hh H].
  2:{ rewrite !append_length, !appendInt_length2 by done. done. }
  apply append_inj_tail in H as [Hm Hs].
  2:{ rewrite !appendInt_length2 by done. done. }
  apply appendInt_inj in HY, HM, HD, Hh, Hm, Hs.
  destruct t1, t2; cbn in *; by subst.
Qed.

Lemma archiveName_plain (t : Time) : filepath.plain (archiveName t).
Proof.
  unfold archiveName. rewrite <- append_assoc.
  apply filepath_facts.plain_append; [|done|cbn; lia].
  by rewrite hasSep_append, hasSep_Format.
Qed.

Lemma Base_archivePathOf (config : Config) (t : Time) :
  filepath.Base (archivePathOf config t) = archiveName t.
Proof.
  pose proof (archiveName_plain t) as Hp.
  unfold archivePathOf. fold (archiveName t).
  rewrite filepath_facts.Base_Join.
  - apply filepath_facts.afterLastSep_nosep, Hp.
  - by rewrite filepath_facts.afterLastSep_nosep by apply Hp.
Qed.

Lemma archivePathOf_inj (c1 c2 : Config) (t1 t2 : Time) :
  validTime t1 -> validTime t2 ->
  archivePathOf c1 t1 = archivePathOf c2 t2 -> t1 = t2.
Proof.
  intros Hv1 Hv2 H. apply (f_equal filepath.Base) in H.
  rewrite !Base_archivePathOf in H. unfold archiveName in H.
  apply String.app_inj in H. apply append_inj_tail in H as [H _]; [|done].
  by apply Format_inj.
Qed.

Lemma archive_not_dump (c1 c2 : Config) (t : Time) (db : string) :
  archivePathOf c1 t <> backupFileOf c2 db.
Proof.
  intros H. apply (f_equal filepath.Base) in H.
  rewrite Base_archivePathOf, Base_backupFileOf in H.
  unfold archiveName, entryNameOf in H.
  change ".tar.gz" with (".tar" +:+ ".gz") in H.
  change ".sql" with ("." +:+ "sql") in H.
  rewrite <- !append_assoc in H.
  by apply append_inj_tail in H as [_ [=]].
Qed.

Lemma created_attempts (tr : list Event) (path : string) :
  path ∈ created tr -> path ∈ attempts tr.
Proof.
  unfold created, attempts. rewrite !list_elem_of_omap.
  intros (e & Hin & He). exists e. split; [done|].
  by destruct e as [[] [?|]| | |].
Qed.

Section attempts_of_main.

Variable env : Env.

Variable targz : list TarEntry -> string.

(** The files a run tries to create are output files of dumps and the
  archive it announces. *)
Lemma main_attempts (w : World) (path : string) :
path ∈ attempts (traceOf (main env targz w)) ->
(exists config db, path = backupFileOf config db) \/
announceArchive path ∈ traceOf (main env targz w).
Proof.
main_cases env targz w; cbn [traceOf worldOf snd fst];
  try (destruct (dumpLoop_collects env config' (Databases config') []
                   (mkdirWorld w1')) as (_ & _ & Hatt & _);
       rewrite Hdump in Hatt; cbn [valueOf traceOf fst snd app] in Hatt);
  try (pose proof Harchs as (_ & _ & _ & _ & _ & _ & Hatt5)%archive_reads);
  trace_facts; reads_split;
  repeat match goal with H : omap _ _ = [] |- _ => rewrite H end;
  cbn [app]; rewrite ?app_nil_r; intros Hin.
- by apply elem_of_nil in Hin.
- by apply elem_of_nil in Hin.
- apply elem_of_app in Hin as [Hin|Hin].
  + rewrite Hatt in Hin. apply list_elem_of_fmap in Hin as (db & -> & _). eauto.
  + apply Hatt5 in Hin as ->. right. elem_split. auto 10.
- apply elem_of_app in Hin as [Hin|Hin].
  + rewrite Hatt in Hin. apply list_elem_of_fmap in Hin as (db & -> & _). eauto.
  + apply Hatt5 in Hin as ->. right. elem_split. auto 10.
- apply elem_of_app in Hin as [Hin|Hin].
  + rewrite Hatt in Hin. apply list_elem_of_fmap in Hin as (db & -> & _). eauto.
  + apply Hatt5 in Hin as ->. right. elem_split. auto 10.
Qed.

End attempts_of_main.

(** Claim C8, as amended.  The archive path of a run is the backup
    directory joined with [backup_<timestamp>.tar.gz], where the timestamp
    is the one clock reading of the run, taken after the dump loop, at
    seconds resolution.  Two runs whose readings differ have distinct
    archive paths, and the second leaves the file at the archive path of
    the first as it found it. *)
Theorem archive_paths_distinct (envA envB : Env) (targz : list TarEntry -> string)
  (wA wB : World) (pA pB : string) (tA tB : Time) :
  let rA := main envA targz wA in
  let rB := main envB targz wB in
  announceArchive pA ∈ traceOf rA ->
  announceArchive pB ∈ traceOf rB ->
  stamps (traceOf rA) = [tA] ->
  stamps (traceOf rB) = [tB] ->
  validTime tA -> validTime tB -> tA <> tB ->
  (forall config w1 t1,
     loadConfig envA "config.json" wA = ((config, None), w1, t1) ->
     pA = filepath.Join [BackupDirectory config;
                         "backup_" +:+ Format tA +:+ ".tar.gz"]) /\
  pA <> pB /\
  fs (worldOf rB) !! pA = fs wB !! pA.
Proof.
  intros rA rB HinA HinB HsA HsB HvA HvB Hne. subst rA rB.
  destruct (main_archive_stage envA targz wA pA (or_introl HinA))
    as (cA & w1 & t1 & files & w3 & t3 & t & w4 &
        Hload & _ & _ & -> & _ & _ & _ & _ & Hst & _).
  rewrite HsA in Hst. injection Hst as <-.
  pose proof (main_archive_stage envB targz wB pB (or_introl HinB))
    as (cB & w1' & t1' & files' & w3' & t3' & t' & w4' &
        _ & _ & _ & -> & _ & _ & _ & _ & Hst' & _).
  rewrite HsB in Hst'. injection Hst' as <-.
  assert (archivePathOf cA tA <> archivePathOf cB tB) as Hpaths.
  { intros H. by apply archivePathOf_inj in H. }
  split; [|split; [done|]].
  - intros config w2 t2 Hload2. rewrite Hload in Hload2. by simplify_eq.
  - apply main_keeps. intros [(c & db & H)|Hin]%created_attempts%main_attempts.
    + by apply archive_not_dump in H.
    + destruct (main_archive_stage envB targz wB _ (or_introl Hin))
        as (cB' & ? & ? & ? & ? & ? & t'' & ? &
            _ & _ & _ & H & _ & _ & _ & _ & Hst'' & _).
      rewrite HsB in Hst''. injection Hst'' as <-.
      apply Hne. by apply archivePathOf_inj in H.
Qed.


Ltac by_compute := apply (bool_decide_unpack _); vm_compute; exact I.

Lemma quit_once_witness :
  fault (Sample.failing Scenario.storeFails) (tick Sample.world)
    (FtpDial (FTPHost Sample.config)) = None /\
  let r := uploadToFTP (Sample.failing Scenario.storeFails) Sample.config
             Scenario.archive
             {| fs := {[ Scenario.archive := "x" ]}; tick := 0 |} in
  quits (traceOf r) = 1 /\ exists q, last (traceOf r) = Some (Called FtpQuit q).
Proof.
  split; [reflexivity|].
  apply (quit_once (Sample.failing Scenario.storeFails)). reflexivity.
Defined.

Lemma exit_status_witness :
  valueOf (firstFailure (Sample.failing Scenario.billingFails) Framed.targz
             Sample.world) = None /\
  valueOf (main (Sample.failing Scenario.billingFails) Framed.targz Sample.world) = 0.
Proof.
  assert (valueOf (firstFailure (Sample.failing Scenario.billingFails) Framed.targz
             Sample.world) = None) as H by (vm_compute; reflexivity).
  split; [exact H|].
  apply (proj2 (proj1 (exit_status (Sample.failing Scenario.billingFails)
                         Framed.targz Sample.world))).
  exact H.
Defined.

Lemma no_directory_no_dump_witness :
  let env := Sample.failing Scenario.mkdirFails in
  let loaded := loadConfig env "config.json" Sample.world in
  loaded = ((Sample.config, None), worldOf loaded, traceOf loaded) /\
  fault env (tick (worldOf loaded)) (OsMkdirAll (BackupDirectory Sample.config)) =
    Some "mkdir /var/backups: permission denied" /\
  let r := main env Framed.targz Sample.world in
  valueOf r = 1 /\
  filter isDumpWork (traceOf r) = [] /\
  fs (worldOf r) = fs Sample.world /\
  last (traceOf r) =
    Some (Logged ("failed to create directory for backups: " +:+
                  "mkdir /var/backups: permission denied")).
Proof.
  cbv zeta.
  assert (loadConfig (Sample.failing Scenario.mkdirFails) "config.json" Sample.world =
          ((Sample.config, None),
           worldOf (loadConfig (Sample.failing Scenario.mkdirFails) "config.json" Sample.world),
           traceOf (loadConfig (Sample.failing Scenario.mkdirFails) "config.json" Sample.world)))
    as Hload by (vm_compute; reflexivity).
  split; [exact Hload|]. split; [reflexivity|].
  apply (no_directory_no_dump (Sample.failing Scenario.mkdirFails) Framed.targz
           Sample.world Sample.config _ _ _ Hload).
  reflexivity.
Defined.

Lemma dump_failure_skipped_witness :
  let env := Sample.failing Scenario.billingFails in
  let e := "failed to execute mysqldump: exit status 2" in
  let out := backupFileOf Sample.config "billing" in
  let r1 := backupDatabase env Sample.config "billing" out Sample.world in
  valueOf r1 = Some e /\
  let r := dumpLoop env Sample.config ["billing"; "app"] [] Sample.world in
  let rest := dumpLoop env Sample.config ["app"] [] (worldOf r1) in
  (exists c cause,
     Called c (Some cause) ∈ traceOf r1 /\
     contains (reportLine "billing" e) cause = true) /\
  contains (reportLine "billing" e) "billing" = true /\
  traceOf r =
    (announceDump Sample.config "billing" :: traceOf r1 ++
     Logged (reportLine "billing" e) :: traceOf rest)%list /\
  valueOf r = valueOf rest /\
  valueOf r = ([] ++ dumpedPaths (traceOf rest))%list /\
  attempts (traceOf rest) = map (backupFileOf Sample.config) ["app"] /\
  (forall (all files : list string) (w0 : World),
     attempts (traceOf (dumpLoop env Sample.config all files w0)) =
     map (backupFileOf Sample.config) all).
Proof.
  cbv zeta.
  assert (valueOf (backupDatabase (Sample.failing Scenario.billingFails)
                     Sample.config "billing"
                     (backupFileOf Sample.config "billing") Sample.world) =
          Some "failed to execute mysqldump: exit status 2")
    as H by (vm_compute; reflexivity).
  split; [exact H|].
  exact (dump_failure_skipped (Sample.failing Scenario.billingFails)
           Sample.config "billing" ["app"] [] Sample.world _ H).
Defined.




Lemma archive_paths_distinct_witness :
  let rA := main Sample.calm Framed.targz Sample.world in
  let rB := main Scenario.prompt Framed.targz (worldOf rA) in
  announceArchive Scenario.archive ∈ traceOf rA /\
  announceArchive Scenario.archiveLater ∈ traceOf rB /\
  stamps (traceOf rA) = [Sample.clock] /\
  stamps (traceOf rB) = [Scenario.later] /\
  validTime Sample.clock /\ validTime Scenario.later /\
  Sample.clock <> Scenario.later /\
  (forall config w1 t1,
     loadConfig Sample.calm "config.json" Sample.world = ((config, None), w1, t1) ->
     Scenario.archive =
       filepath.Join [BackupDirectory config;
                      "backup_" +:+ Format Sample.clock +:+ ".tar.gz"]) /\
  Scenario.archive <> Scenario.archiveLater /\
  fs (worldOf rB) !! Scenario.archive = fs (worldOf rA) !! Scenario.archive.
Proof.
  cbv zeta.
  assert (announceArchive Scenario.archive ∈
          traceOf (main Sample.calm Framed.targz Sample.world)) as HA by by_compute.
  assert (announceArchive Scenario.archiveLater ∈
          traceOf (main Scenario.prompt Framed.targz
                     (worldOf (main Sample.calm Framed.targz Sample.world))))
    as HB by by_compute.
  assert (stamps (traceOf (main Sample.calm Framed.targz Sample.world)) =
          [Sample.clock]) as HsA by (vm_compute; reflexivity).
  assert (stamps (traceOf (main Scenario.prompt Framed.targz
                     (worldOf (main Sample.calm Framed.targz Sample.world)))) =
          [Scenario.later]) as HsB by (vm_compute; reflexivity).
  assert (validTime Sample.clock) as HvA by (vm_compute; repeat split; lia).
  assert (validTime Scenario.later) as HvB by (vm_compute; repeat split; lia).
  assert (Sample.clock <> Scenario.later) as Hne by by_compute.
  do 7 (split; [assumption|]).
  exact (archive_paths_distinct Sample.calm Scenario.prompt Framed.targz
           Sample.world (worldOf (main Sample.calm Framed.targz Sample.world))
           Scenario.archive Scenario.archiveLater Sample.clock Scenario.later
           HA HB HsA HsB HvA HvB Hne).
Defined.



(** Claim C8 as stated fails: two runs that start in different seconds
    can read the clock for the archive name in the same second. *)
Lemma start_times_do_not_name :
  ~ (forall (envA envB : Env) (wA wB : World) (pA pB : string),
       wallClock envA (tick wA) <> wallClock envB (tick wB) ->
       announceArchive pA ∈ traceOf (main envA Framed.targz wA) ->
       announceArchive pB ∈ traceOf (main envB Framed.targz wB) ->
       pA <> pB).
Proof.
  intros H.
  apply (H Scenario.slow Scenario.prompt Sample.world Sample.world
           Scenario.archiveLater Scenario.archiveLater); [| | |reflexivity];
    by_compute.
Qed.

(** * Further properties of the program *)

(** ** Loading the configuration *)

(** [loadConfig] on a file that is not there: the zero [Config] and the
    error of [os.Open] are returned; nothing is decoded, nothing is closed
    and no file changes.  Unless the environment reports another error,
    the error is that of a missing file. *)
Theorem loadConfig_missing (env : Env) (filename : string) (w : World) :
  fs w !! filename = None ->
  let r := loadConfig env filename w in
  exists e,
    valueOf r = (zeroConfig, Some e) /\
    traceOf r = [Called (OsOpen filename) (Some e)] /\
    fs (worldOf r) = fs w /\
    (fault env (tick w) (OsOpen filename) = None ->
     e = "open " +:+ filename +:+ ": no such file or directory").
Proof.
  intros Hnone. unfold loadConfig, os_Open, bind, lookupFile, performOr, ret.
  cbn. rewrite Hnone. cbn.
  destruct (fault env (tick w) (OsOpen filename)) as [e|]; cbn.
  - exists e. by repeat split.
  - eexists. by repeat split.
Qed.

(** [loadConfig] on a file it can open: the file is decoded, then closed,
    once; the error returned is the one of the decoder, whatever closing
    returns, and the configuration is what the decoder has made of the
    content of the file, also when it reports an error. *)
Theorem loadConfig_closes (env : Env) (filename : string) (w : World)
  (content : string) :
  fs w !! filename = Some content ->
  fault env (tick w) (OsOpen filename) = None ->
  let r := loadConfig env filename w in
  exists n decodeError closed,
    valueOf r = (decoded env n content, decodeError) /\
    traceOf r = [Called (OsOpen filename) None;
                 Called (JsonDecode filename) decodeError;
                 Called (FileClose filename) closed] /\
    fs (worldOf r) = fs w.
Proof.
  intros Hsome Hopen.
  unfold loadConfig, os_Open, defer, bind, lookupFile, perform, performOr, stepNo, ret.
  cbn. rewrite Hsome, Hopen. cbn. rewrite Hsome. cbn.
  destruct (fault env (S (tick w)) (JsonDecode filename)); cbn;
    eexists _, _, _; by repeat split.
Qed.

(** A run without [config.json] ends with status 1 after one call: the
    open that failed is logged, no directory is made, no process is
    started, no server is reached and no file changes. *)
Theorem main_without_config (env : Env) (targz : list TarEntry -> string)
  (w : World) :
  fs w !! "config.json" = None ->
  let r := main env targz w in
  valueOf r = 1 /\
  fs (worldOf r) = fs w /\
  exists e,
    traceOf r = [Called (OsOpen "config.json") (Some e);
                 Logged ("failed to load config: " +:+ e)].
Proof.
  intros Hnone r. subst r.
  unfold main, loadConfig, os_Open, log_Fatalf, emit, bind, lookupFile,
    performOr, ret.
  cbn. rewrite Hnone. cbn.
  destruct (fault env (tick w) (OsOpen "config.json")) as [e|]; cbn; eauto.
Qed.

(** ** The dump stage *)

(** [backupDatabase] touches no file but its output file.  When the file
    cannot be created no process is started and nothing changes; once it
    is created, whatever it held is replaced by what the process wrote,
    whether or not the process ended well, and the file is closed last. *)
Theorem dump_replaces_file (env : Env) (config : Config) (db out : string)
  (w : World) :
  let argv := mysqldumpArgv config db in
  let r := backupDatabase env config db out w in
  (forall path, path <> out -> fs (worldOf r) !! path = fs w !! path) /\
  match fault env (tick w) (OsCreate out) with
  | Some cause =>
      valueOf r = Some (wrap "failed to create database copy file" cause) /\
      fs (worldOf r) = fs w /\ commands (traceOf r) = []
  | None =>
      (exists n, fs (worldOf r) !! out = Some (dumpOutput env n argv)) /\
      commands (traceOf r) = [(argv, out)] /\
      exists closed, last (traceOf r) = Some (Called (FileClose out) closed)
  end.
Proof.
  intros argv r. subst r argv.
  pose proof (backupDatabase_run env config db out w) as H. cbv zeta in H.
  destruct (fault env (tick w) (OsCreate out)) as [cause|].
  - rewrite H. by cbn.
  - destruct H as [closed ->]. cbn. split.
    + intros path Hne. by rewrite !lookup_insert_ne.
    + rewrite lookup_insert_eq. split; [eauto|]. split; [done|]. by exists closed.
Qed.

Lemma backupDatabase_accounts (env : Env) (config : Config) (db out : string)
  (w : World) :
  let r := backupDatabase env config db out w in
  logged (traceOf r) = [] /\
  (valueOf r = None /\ dumped (traceOf r) = [db] \/
   (exists e, valueOf r = Some e) /\ dumped (traceOf r) = []).
Proof.
  intros r. subst r.
  pose proof (backupDatabase_run env config db out w) as H. cbv zeta in H.
  destruct (fault env (tick w) (OsCreate out)) as [cause|].
  - rewrite H. cbn. split; [done|]. right. eauto.
  - destruct H as [closed ->]. unfold logged, dumped. cbn. split; [done|].
    destruct (fault env (S (tick w)) _); cbn; [right; eauto|by left].
Qed.

(** The dump loop accounts for every database of its list exactly once:
    a database is either dumped, and its file collected, or reported in
    one logged line, and the loop logs nothing else.  The collected files
    are those of the dumped databases, in order, after the ones it was
    given. *)
Theorem dumpLoop_accounts (env : Env) (config : Config) (dbs acc : list string)
  (w : World) :
  let r := dumpLoop env config dbs acc w in
  exists failed : list (string * error),
    logged (traceOf r) = map (fun f => reportLine f.1 f.2) failed /\
    dumped (traceOf r) ++ map fst failed ≡ₚ dbs /\
    valueOf r = (acc ++ map (backupFileOf config) (dumped (traceOf r)))%list.
Proof.
  revert acc w. induction dbs as [|db dbs IH]; intros acc w.
  - exists []. cbn. by rewrite app_nil_r.
  - destruct (backupDatabase_accounts env config db (backupFileOf config db) w)
      as [Hlog [(Hv & Hd)|([e Hv] & Hd)]].
    + rewrite (dumpLoop_take _ _ _ _ _ _ Hv). cbv zeta.
      destruct (IH (acc ++ [backupFileOf config db])%list
                  (worldOf (backupDatabase env config db
                              (backupFileOf config db) w)))
        as (failed & IH1 & IH2 & IH3).
      exists failed. unfold logged, dumped in *.
      cbn [valueOf worldOf traceOf fst snd].
      rewrite !omap_cons, !omap_app.
      cbn [loggedOf dumpedDbOf announceDump].
      rewrite Hlog, Hd, IH1, IH3. cbn. rewrite <- app_assoc.
      repeat split; try done. by constructor.
    + rewrite (dumpLoop_skip _ _ _ _ _ _ _ Hv). cbv zeta.
      destruct (IH acc
                  (worldOf (backupDatabase env config db
                              (backupFileOf config db) w)))
        as (failed & IH1 & IH2 & IH3).
      exists ((db, e) :: failed). unfold logged, dumped in *.
      cbn [valueOf worldOf traceOf fst snd].
      rewrite !omap_cons, !omap_app, !omap_cons.
      cbn [loggedOf dumpedDbOf announceDump reportDump].
      rewrite Hlog, Hd, IH1, IH3. cbn.
      repeat split; try done.
      rewrite <- Permutation_middle. by constructor.
Qed.

Lemma backupDatabase_commands (env : Env) (config : Config) (db : string)
  (w : World) :
  let r := backupDatabase env config db (backupFileOf config db) w in
  commands (traceOf r) = [] \/ commands (traceOf r) = [dumpCommand config db].
Proof.
  intros r. subst r.
  pose proof (backupDatabase_run env config db (backupFileOf config db) w) as H.
  cbv zeta in H.
  destruct (fault env (tick w) (OsCreate _)) as [cause|].
  - rewrite H. by left.
  - destruct H as [closed ->]. by right.
Qed.

(** The processes of the dump loop: one per database whose file could be
    created, in the order of the list. *)
Lemma dumpLoop_commands (env : Env) (config : Config) (dbs acc : list string)
  (w : World) :
  exists started,
    sublist started dbs /\
    commands (traceOf (dumpLoop env config dbs acc w)) =
    map (dumpCommand config) started.
Proof.
  revert acc w. induction dbs as [|db dbs IH]; intros acc w.
  - by exists [].
  - pose proof (backupDatabase_commands env config db w) as Hc. cbv zeta in Hc.
    destruct (valueOf (backupDatabase env config db (backupFileOf config db) w))
      as [e|] eqn:Hv.
    + rewrite (dumpLoop_skip _ _ _ _ _ _ _ Hv). cbv zeta.
      destruct (IH acc (worldOf (backupDatabase env config db
                                   (backupFileOf config db) w)))
        as (started & Hsub & Heq).
      unfold commands in *. cbn [traceOf snd].
      rewrite !omap_cons, !omap_app, !omap_cons.
      cbn [commandOf announceDump reportDump]. rewrite Heq.
      destruct Hc as [->| ->].
      * exists started. split; [by constructor|done].
      * exists (db :: started). split; [by constructor|done].
    + rewrite (dumpLoop_take _ _ _ _ _ _ Hv). cbv zeta.
      destruct (IH (acc ++ [backupFileOf config db])%list
                  (worldOf (backupDatabase env config db
                              (backupFileOf config db) w)))
        as (started & Hsub & Heq).
      unfold commands in *. cbn [traceOf snd].
      rewrite !omap_cons, !omap_app.
      cbn [commandOf announceDump]. rewrite Heq.
      destruct Hc as [->| ->].
      * exists started. split; [by constructor|done].
      * exists (db :: started). split; [by constructor|done].
Qed.

Lemma no_commands (P : Event -> Prop) (tr : list Event) :
  (forall e, P e -> commandOf e = None) -> Forall P tr -> commands tr = [].
Proof.
  intros HP Htr. apply omap_none. eapply Forall_impl; [exact Htr|exact HP].
Qed.

Lemma silent_no_command (e : Event) : silent e -> commandOf e = None.
Proof. by destruct e as [[]| | |]. Qed.

Lemma archiveEvent_no_command (p : string) (e : Event) :
  archiveEvent p e -> commandOf e = None.
Proof. by destruct e as [[]| | |]. Qed.

Lemma uploadEvent_no_command (e : Event) : uploadEvent e -> commandOf e = None.
Proof. by destruct e as [[]| | |]. Qed.

Ltac commands_split :=
  unfold commands in *; cbn [traceOf snd];
  repeat first [rewrite omap_app | rewrite omap_cons];
  cbn [commandOf announceArchive announceUpload announceDone].

(** A run starts no process but [mysqldump], at most once per configured
    database and in the order of the configuration: each time with the
    configured host, user and password, the database as the last
    argument, and the dump file of that database as standard output. *)
Theorem main_runs_only_mysqldump (env : Env) (targz : list TarEntry -> string)
  (w : World) :
  let config := loadedConfig env w in
  exists started,
    sublist started (Databases config) /\
    commands (traceOf (main env targz w)) =
    map (fun db => (["mysqldump"; "-h"; MySQLHost config; "-u"; MySQLUser config;
                     "-p" +:+ MySQLPassword config; db],
                    filepath.Join [BackupDirectory config; db +:+ ".sql"]))
        started.
Proof.
  cbv zeta. unfold loadedConfig.
  main_cases env targz w; rewrite Hload'; cbn [valueOf fst];
    try (destruct (dumpLoop_commands env config' (Databases config') []
                     (mkdirWorld w1')) as (started & Hsub & Hcmd);
         rewrite Hdump in Hcmd; cbn [traceOf snd] in Hcmd);
    repeat match goal with
    | H : Forall silent _ |- _ =>
        apply (no_commands _ _ silent_no_command) in H
    | H : Forall (archiveEvent _) _ |- _ =>
        apply (no_commands _ _ (archiveEvent_no_command _)) in H
    | H : Forall uploadEvent _ |- _ =>
        apply (no_commands _ _ uploadEvent_no_command) in H
    end;
    try clear Hdumps;
    commands_split;
    repeat match goal with H : omap commandOf _ = _ |- _ => rewrite H end;
    cbn [app]; rewrite ?app_nil_r.
  - exists []. split; [apply sublist_nil_l|done].
  - exists []. split; [apply sublist_nil_l|done].
  - by exists started.
  - by exists started.
  - by exists started.
Qed.

(** ** Files of a run *)

(** A run deletes nothing: a file that is there when the run starts is
    there when it ends, however the run ends. *)
Theorem main_deletes_nothing (env : Env) (targz : list TarEntry -> string)
  (w : World) (path : string) :
  is_Some (fs w !! path) ->
  is_Some (fs (worldOf (main env targz w)) !! path).
Proof. apply keeps_frame, main_keeps. Qed.

(** The files a run tries to create: dump files of configured databases,
    and the archive named after the clock reading of the run. *)
Lemma main_dump_attempts (env : Env) (targz : list TarEntry -> string)
  (w : World) (path : string) :
  path ∈ attempts (traceOf (main env targz w)) ->
  let config := loadedConfig env w in
  (exists db, db ∈ Databases config /\ path = backupFileOf config db) \/
  (exists t, stamps (traceOf (main env targz w)) = [t] /\
             path = archivePathOf config t).
Proof.
  cbv zeta. unfold loadedConfig.
  main_cases env targz w; rewrite Hload'; cbn [traceOf worldOf valueOf snd fst];
    try (destruct (dumpLoop_collects env config' (Databases config') []
                     (mkdirWorld w1')) as (_ & _ & Hatt & _);
         rewrite Hdump in Hatt; cbn [valueOf traceOf fst snd app] in Hatt);
    try (pose proof Harchs as (_ & _ & _ & _ & _ & _ & Hatt5)%archive_reads);
    trace_facts; reads_split;
    repeat match goal with H : omap _ _ = [] |- _ => rewrite H end;
    cbn [app]; rewrite ?app_nil_r; intros Hin;
    try (by apply elem_of_nil in Hin);
    (apply elem_of_app in Hin as [Hin|Hin];
     [rewrite Hatt in Hin; apply list_elem_of_fmap in Hin as (db & -> & Hdb);
      left; eauto
     |apply Hatt5 in Hin as ->; right; eauto]).
Qed.

(** A run changes no file but its own outputs: a file whose content
    differs after the run is the dump file of a configured database, or
    the archive named after the one clock reading of the run. *)
Theorem main_changes_only_outputs (env : Env) (targz : list TarEntry -> string)
  (w : World) (path : string) :
  let r := main env targz w in
  let config := loadedConfig env w in
  fs (worldOf r) !! path <> fs w !! path ->
  (exists db, db ∈ Databases config /\
              path = filepath.Join [BackupDirectory config; db +:+ ".sql"]) \/
  (exists t, stamps (traceOf r) = [t] /\
             path = filepath.Join [BackupDirectory config;
                                   "backup_" +:+ Format t +:+ ".tar.gz"]).
Proof.
  cbv zeta. intros Hne.
  apply (main_dump_attempts env targz w path).
  apply created_attempts.
  destruct (decide (path ∈ created (traceOf (main env targz w)))) as [Hin|Hout];
    [done|].
  by apply (main_keeps env targz w path) in Hout.
Qed.

(** The archive is never one of its own inputs: whatever the database
    names are, the archive path of a run is the path of no dump file, so
    no dump writes to it and the archive stage does not read it. *)
Theorem archive_not_own_input (env : Env) (targz : list TarEntry -> string)
  (w : World) (p : string) :
  let r := main env targz w in
  announceArchive p ∈ traceOf r ->
  (p ∉ dumpedPaths (traceOf r)) /\
  (p ∉ archivedFrom (traceOf r)) /\
  (forall config db, p <> backupFileOf config db).
Proof.
  cbv zeta. intros Hin.
  destruct (main_archive_stage env targz w p (or_introl Hin))
    as (config & w1 & t1 & files & w3 & t3 & t & w4 &
        _ & _ & _ & -> & _ & Hpaths & Hfiles & _).
  assert (forall c db, archivePathOf config t <> backupFileOf c db) as Hne
    by (intros c db; apply archive_not_dump).
  assert (archivePathOf config t ∉ dumpedPaths (traceOf (main env targz w))) as Hd.
  { rewrite Hpaths, Hfiles. intros (db & Heq & _)%list_elem_of_fmap.
    by apply Hne in Heq. }
  split; [done|]. split; [|done].
  intros Hr. by apply main_archives_dumped in Hr.
Qed.

(** ** The archive stage, file by file *)

Section archive_order.

Variable env : Env.

Variable targz : list TarEntry -> string.

Ltac loop_unfold :=
  cbn [archiveLoop];
  unfold bind, os_Stat, tar_FileInfoHeader, os_Open, io_Copy, perform,
    performOr, lookupFile, ret, valueOf, worldOf, traceOf;
  cbn.

(** One turn of the loop, by what it looks at, opens, copies and closes. *)
Lemma archiveLoop_turn file files written opened w :
  let r := archiveLoop env (file :: files) written opened w in
  (exists e,
     (valueOf r).1.1 = Some e /\
     statted (traceOf r) = [file] /\ copied (traceOf r) = [] /\
     closes (traceOf r) = [] /\
     (valueOf r).2 = (rev (openedFiles (traceOf r)) ++ opened)%list /\
     (namesFile e file \/ headerWriteError e)) \/
  (exists t w',
     let rest := archiveLoop env files (written ++ [entryOf (fs w) file])
                   (file :: opened) w' in
     r = (valueOf rest, worldOf rest, (t ++ traceOf rest)%list) /\
     statted t = [file] /\ copied t = [file] /\ openedFiles t = [file] /\
     closes t = []).
Proof.
  loop_unfold.
  destruct (fault env (tick w) (OsStat file)) eqn:?; cbn.
  { left. eexists. repeat split. left. apply contains_wrap_file_end. }
  destruct (fs w !! file) as [content|] eqn:Hfile; cbn.
  2:{ left. eexists. repeat split. left. apply contains_wrap_file_end. }
  destruct (fault env (S (tick w)) _) eqn:?; cbn.
  { left. eexists. repeat split. left. apply contains_wrap_file_end. }
  destruct (fault env (S (S (tick w))) _) eqn:?; cbn.
  { left. eexists. repeat split. right. by eexists. }
  destruct (fault env (S (S (S (tick w)))) _) eqn:?; cbn.
  { left. eexists. repeat split. left. apply contains_wrap_file_end. }
  rewrite Hfile. cbn.
  destruct (fault env (S (S (S (S (tick w))))) _) eqn:?; cbn.
  { left. eexists. repeat split. left. apply contains_wrap_file. }
  rewrite Hfile. cbn. right.
  match goal with |- context [archiveLoop env files ?wr ?op ?w'] =>
    exists [Called (OsStat file) None;
            Called (TarFileInfoHeader (filepath.Base file)) None;
            Called (TarWriteHeader (filepath.Base file)) None;
            Called (OsOpen file) None; Called (IoCopy file) None], w'
  end.
  cbv zeta. unfold entryOf. rewrite Hfile. cbn.
  match goal with |- context [archiveLoop env files ?wr ?op ?w'] =>
    destruct (archiveLoop env files wr op w') as [[v w2] t2] end.
  by cbn.
Qed.

(** The loop closes nothing; the files it hands over to be closed are the
    ones it has opened, the last one first; and it takes the files in
    order, up to the first one that fails. *)
Lemma archiveLoop_progress (files : list string) written opened (w : World) :
  let r := archiveLoop env files written opened w in
  closes (traceOf r) = [] /\
  (valueOf r).2 = (rev (openedFiles (traceOf r)) ++ opened)%list /\
  match (valueOf r).1.1 with
  | None => statted (traceOf r) = files /\ copied (traceOf r) = files
  | Some e =>
      exists done file rest,
        files = (done ++ file :: rest)%list /\
        statted (traceOf r) = (done ++ [file])%list /\
        copied (traceOf r) = done /\
        (namesFile e file \/ headerWriteError e)
  end.
Proof.
  revert written opened w.
  induction files as [|file files IH]; intros written opened w; [done|].
  destruct (archiveLoop_turn file files written opened w)
    as [(e & He & Hs & Hc & Hcl & Hop & Hname)|(t & w' & Hrun & Hs & Hc & Ho & Hcl)].
  - cbv zeta. rewrite He. split; [done|]. split; [done|].
    exists [], file, files. by rewrite Hs, Hc.
  - cbv zeta in *. rewrite Hrun.
    destruct (IH (written ++ [entryOf (fs w) file])%list (file :: opened) w')
      as (IHcl & IHop & IHv).
    cbn [valueOf traceOf fst snd].
    unfold closes, openedFiles, statted, copied in *.
    rewrite !omap_app, Hcl, IHcl, Ho, Hs, Hc, IHop. cbn [app].
    split; [done|]. split.
    { cbn [rev]. by rewrite <- !app_assoc. }
    destruct ((valueOf (archiveLoop env files _ _ w')).1.1) as [e|].
    + destruct IHv as (done & f & rest & -> & -> & -> & Hname).
      by exists (file :: done), f, rest.
    + by destruct IHv as [-> ->].
Qed.

Lemma closeAll_closes (opened : list string) (w : World) :
  let r := closeAll env opened w in
  closes (traceOf r) = map FileClose opened /\
  length (traceOf r) = length opened /\
  statted (traceOf r) = [] /\ copied (traceOf r) = [] /\
  openedFiles (traceOf r) = [].
Proof.
  revert w. induction opened as [|file opened IH]; intros w; [done|].
  cbn [closeAll]. unfold bind, perform, performOr. cbn.
  specialize (IH {| fs := fs w; tick := S (tick w) |}). cbv zeta in IH.
  destruct (closeAll env opened _) as [[u w2] t2].
  cbn in *. destruct IH as (-> & -> & -> & -> & ->). done.
Qed.

(** A run of [archiveFiles] that has created the archive file: the loop,
    then the deferred calls. *)
Lemma archiveFiles_shape (files : list string) (archivePath : string) (w : World) :
  fault env (tick w) (OsCreate archivePath) = None ->
  let r := archiveFiles env targz files archivePath w in
  let loop :=
    archiveLoop env files [] []
      {| fs := <[archivePath := EmptyString]> (fs w); tick := S (tick w) |} in
  exists tclose c1 c2 c3,
    valueOf r = (valueOf loop).1.1 /\
    traceOf r =
      (Called (OsCreate archivePath) None :: traceOf loop ++ tclose ++
       [Called TarClose c1; Called GzipClose c2;
        Called (FileClose archivePath) c3])%list /\
    closes tclose = map FileClose (valueOf loop).2 /\
    length tclose = length (valueOf loop).2 /\
    statted tclose = [] /\ copied tclose = [] /\ openedFiles tclose = [].
Proof.
  intros Hc r. subst r. unfold archiveFiles, os_Create.
  unfold bind, perform, performOr, modify, stepNo, ret, setFs. cbn.
  rewrite Hc. cbn.
  set (w1 := {| fs := <[archivePath:=EmptyString]> (fs w); tick := S (tick w) |}).
  destruct (archiveLoop env files [] [] w1) as [[[[err wr] op] w2] t2].
  pose proof (closeAll_closes op w2) as Hcl. cbv zeta in Hcl.
  destruct (closeAll env op w2) as [[u w3] t3].
  unfold valueOf, worldOf, traceOf in *. cbn in *.
  exists t3.
  exists (match fault env (tick w3) TarClose with Some e => Some e | None => None end).
  exists (match fault env (S (tick w3)) GzipClose with Some e => Some e | None => None end).
  exists (match fault env (S (S (tick w3))) (FileClose archivePath) with Some e => Some e | None => None end).
  by destruct Hcl as (? & ? & ? & ? & ?).
Qed.

(** The deferred calls of [archiveFiles] run when its work is over, the
    last deferred first.  Once the archive file is created, the calls of
    a run are its work, in which nothing is closed, and then only closing
    calls: the input files it has opened, the last opened first, then the
    tar writer, the gzip writer and the archive file.  That holds whether
    the loop ends well or stops at a file. *)
Theorem archiveFiles_closes_last (files : list string) (archivePath : string)
  (w : World) :
  fault env (tick w) (OsCreate archivePath) = None ->
  let r := archiveFiles env targz files archivePath w in
  exists work closing,
    traceOf r = (work ++ closing)%list /\
    closes work = [] /\
    length (closes closing) = length closing /\
    closes closing =
      (map FileClose (rev (openedFiles work)) ++
       [TarClose; GzipClose; FileClose archivePath])%list.
Proof.
  intros Hc r. subst r.
  destruct (archiveFiles_shape files archivePath w Hc)
    as (tclose & c1 & c2 & c3 & _ & Ht & Hcl & Hlen & _ & _ & _).
  cbv zeta in *.
  set (w1 := {| fs := <[archivePath:=EmptyString]> (fs w); tick := S (tick w) |}) in *.
  destruct (archiveLoop_progress files [] [] w1) as (Hnone & Hop & _).
  cbv zeta in *. rewrite app_nil_r in Hop.
  exists (Called (OsCreate archivePath) None :: traceOf (archiveLoop env files [] [] w1)),
    (tclose ++ [Called TarClose c1; Called GzipClose c2;
                Called (FileClose archivePath) c3])%list.
  split; [by rewrite Ht|].
  unfold closes, openedFiles in *. rewrite !omap_cons, !omap_app. cbn [closeOf openedOf].
  rewrite Hnone, Hcl, Hop. rewrite Hop in Hlen. split; [done|]. split; [|reflexivity].
  by rewrite !length_app, length_map, Hlen.
Qed.

(** [archiveFiles] takes the files in the order of the list and stops at
    the first one that fails.  When it returns [nil] it has looked at and
    copied every file of the list, in order.  When it returns an error,
    either the archive file could not be created and no file was looked
    at, or the list splits at the file that failed: the files before it
    were copied, that file was the last one looked at, the files after it
    were not touched, and the error names that file unless it is the
    error of writing a header. *)
Theorem archiveFiles_stops_at_first_failure (files : list string)
  (archivePath : string) (w : World) :
  let r := archiveFiles env targz files archivePath w in
  match valueOf r with
  | None => statted (traceOf r) = files /\ copied (traceOf r) = files
  | Some e =>
      (exists cause, e = wrap "failed to create archive" cause /\
                     statted (traceOf r) = []) \/
      (exists done file rest,
         files = (done ++ file :: rest)%list /\
         statted (traceOf r) = (done ++ [file])%list /\
         copied (traceOf r) = done /\
         (namesFile e file \/ headerWriteError e))
  end.
Proof.
  cbv zeta.
  destruct (fault env (tick w) (OsCreate archivePath)) as [cause|] eqn:Hc.
  { pose proof (archiveFiles_run env targz files archivePath w) as H.
    cbv zeta in H. rewrite Hc in H. rewrite H. cbn. left. by exists cause. }
  destruct (archiveFiles_shape files archivePath w Hc)
    as (tclose & c1 & c2 & c3 & Hv & Ht & _ & _ & Hs & Hcp & _).
  cbv zeta in *.
  set (w1 := {| fs := <[archivePath:=EmptyString]> (fs w); tick := S (tick w) |}) in *.
  destruct (archiveLoop_progress files [] [] w1) as (_ & _ & Hloop).
  cbv zeta in *. rewrite Hv, Ht.
  unfold statted, copied in *. rewrite !omap_cons, !omap_app, !omap_cons.
  cbn [statOf copiedOf]. rewrite Hs, Hcp, !app_nil_r.
  destruct ((valueOf (archiveLoop env files [] [] w1)).1.1) as [e|]; [by right|done].
Qed.

End archive_order.

(** ** What the archive holds *)

Section archive_content.

Variable env : Env.

Variable targz : list TarEntry -> string.

Variable untargz : string -> option (list TarEntry).

Hypothesis codec : forall es, untargz (targz es) = Some es.




End archive_content.

(** ** The transfer stage, call by call *)

(** The four ways [uploadToFTP] can go. *)
Lemma uploadToFTP_run (env : Env) (config : Config) (localFile : string) (w : World) :
  let r := uploadToFTP env config localFile w in
  let dial := Called (FtpDial (FTPHost config)) in
  let login := Called (FtpLogin (FTPUser config) (FTPPassword config)) in
  let remote := filepath.Join [FTPDirectory config; filepath.Base localFile] in
  (exists e, traceOf r = [dial (Some e)]) \/
  (exists e q, traceOf r = [dial None; login (Some e); Called FtpQuit q]) \/
  (exists e q,
     traceOf r = [dial None; login None; Called (OsOpen localFile) (Some e);
                  Called FtpQuit q]) \/
  (exists res closed q,
     is_Some (fs w !! localFile) /\
     traceOf r = [dial None; login None; Called (OsOpen localFile) None;
                  Called (FtpStor remote localFile) res;
                  Called (FileClose localFile) closed; Called FtpQuit q]).
Proof.
  cbv zeta. unfold uploadToFTP, os_Open.
  unfold defer, bind, perform, performOr, lookupFile, ret, valueOf, traceOf. cbn.
  destruct (fault env (tick w) _) eqn:?; cbn; [eauto|].
  destruct (fault env (S (tick w)) _) eqn:?; cbn; [eauto 6|].
  destruct (fault env (S (S (tick w))) _) eqn:?; cbn; [eauto 8|].
  destruct (fs w !! localFile) as [content|] eqn:Hfile; cbn; [|eauto 8].
  destruct (fault env (S (S (S (tick w)))) _) eqn:?; cbn; eauto 10.
Qed.

(** A store command of [uploadToFTP] is for the local file, under its
    base name in the configured directory; the file was there. *)
Lemma uploadToFTP_stor (env : Env) (config : Config) (localFile : string)
  (w : World) (remote loc : string) (res : option error) :
  Called (FtpStor remote loc) res ∈ traceOf (uploadToFTP env config localFile w) ->
  remote = filepath.Join [FTPDirectory config; filepath.Base localFile] /\
  loc = localFile /\ is_Some (fs w !! localFile).
Proof.
  intros Hin.
  destruct (uploadToFTP_run env config localFile w)
    as [(e & Ht)|[(e & q & Ht)|[(e & q & Ht)|(res' & closed & q & Hsome & Ht)]]];
    rewrite Ht in Hin; try not_in_list Hin.
  repeat (apply elem_of_cons in Hin as [Hin|Hin]; [by simplify_eq|]).
  by apply elem_of_nil in Hin.
Qed.

(** [uploadToFTP] sends the store command at most once, and only in a
    session it has opened and logged in to with the configured host, user
    and password, after it has opened the local file: the command stores
    that file under its base name in the configured remote directory.
    After the command, whatever its result, the file is closed and then
    the session is quit. *)
Theorem stor_needs_login (env : Env) (config : Config) (localFile : string)
  (w : World) (remote loc : string) (res : option error) :
  let r := uploadToFTP env config localFile w in
  Called (FtpStor remote loc) res ∈ traceOf r ->
  remote = filepath.Join [FTPDirectory config; filepath.Base localFile] /\
  loc = localFile /\
  is_Some (fs w !! localFile) /\
  exists closed quit,
    traceOf r =
    [Called (FtpDial (FTPHost config)) None;
     Called (FtpLogin (FTPUser config) (FTPPassword config)) None;
     Called (OsOpen localFile) None;
     Called (FtpStor remote loc) res;
     Called (FileClose localFile) closed;
     Called FtpQuit quit].
Proof.
  cbv zeta. intros Hin.
  destruct (uploadToFTP_run env config localFile w)
    as [(e & Ht)|[(e & q & Ht)|[(e & q & Ht)|(res' & closed & q & Hsome & Ht)]]];
    rewrite Ht in Hin; try not_in_list Hin.
  assert (remote = filepath.Join [FTPDirectory config; filepath.Base localFile] /\
          loc = localFile /\ res = res') as (-> & -> & ->).
  { repeat (apply elem_of_cons in Hin as [Hin|Hin]; [by simplify_eq|]).
    by apply elem_of_nil in Hin. }
  rewrite Ht. eauto 10.
Qed.

(** [uploadToFTP] for a local file that is not there returns an error
    without sending a store command, and changes no file.  When no call
    fails otherwise, the session is opened, the error is that of the
    missing file, and quitting the session is the last call. *)
Theorem upload_missing_file (env : Env) (config : Config) (localFile : string)
  (w : World) :
  fs w !! localFile = None ->
  let r := uploadToFTP env config localFile w in
  (exists e, valueOf r = Some e) /\
  (forall remote loc res, Called (FtpStor remote loc) res ∉ traceOf r) /\
  fs (worldOf r) = fs w /\
  ((forall n c, fault env n c = None) ->
   valueOf r =
     Some ("failed to open local file: open " +:+ localFile +:+
           ": no such file or directory") /\
   last (traceOf r) = Some (Called FtpQuit None)).
Proof.
  intros Hnone r. subst r. split; [|split; [|split]].
  - destruct (valueOf (uploadToFTP env config localFile w)) as [e|] eqn:Hv; [eauto|].
    apply uploadToFTP_stored in Hv as (remote & loc & Hin).
    apply uploadToFTP_stor in Hin as (_ & _ & [? Hsome]). congruence.
  - intros remote loc res Hin.
    apply uploadToFTP_stor in Hin as (_ & _ & [? Hsome]). congruence.
  - apply uploadToFTP_readonly.
  - intros Hcalm. unfold uploadToFTP, os_Open.
    unfold defer, bind, perform, performOr, lookupFile, ret, valueOf, traceOf. cbn.
    do 4 (rewrite ?Hcalm, ?Hnone; cbn). done.
Qed.

(** ** The server, as a run sees it *)

Section offline_stages.

Variable env : Env.

Variable targz : list TarEntry -> string.

Lemma loadConfig_offline (filename : string) : always offline (loadConfig env filename).
Proof. unfold loadConfig, os_Open. always_auto. Qed.

Lemma dumpLoop_offline (config : Config) (dbs acc : list string) :
  always offline (dumpLoop env config dbs acc).
Proof.
  revert acc. induction dbs as [|db dbs IH]; intros acc; cbn [dumpLoop].
  - always_auto.
  - unfold backupDatabase, os_Create, cmd_Run.
    repeat (always_step; try done; try apply IH).
Qed.

Lemma archiveLoop_offline (files : list string) written opened :
  always offline (archiveLoop env files written opened).
Proof.
  revert written opened.
  induction files as [|file files IH]; intros written opened; cbn [archiveLoop].
  - always_auto.
  - unfold os_Stat, tar_FileInfoHeader, os_Open, io_Copy.
    repeat (always_step; try done; try apply IH).
Qed.

Lemma closeAll_offline (opened : list string) : always offline (closeAll env opened).
Proof. induction opened as [|f opened IH]; simpl; always_auto. Qed.

Lemma archiveFiles_offline (files : list string) (path : string) :
  always offline (archiveFiles env targz files path).
Proof.
  unfold archiveFiles, os_Create.
  repeat (always_step; try done;
          try apply archiveLoop_offline; try apply closeAll_offline).
Qed.

Lemma uploadToFTP_ftp (config : Config) (localFile : string) :
  always (ftpEvent config) (uploadToFTP env config localFile).
Proof. unfold uploadToFTP, os_Open. always_auto. Qed.

(** An archive stage that ends well leaves the archive file on disk. *)
Lemma archiveFiles_leaves_file (files : list string) (p : string) (w : World) :
  valueOf (archiveFiles env targz files p w) = None ->
  is_Some (fs (worldOf (archiveFiles env targz files p w)) !! p).
Proof.
  intros Hnone.
  pose proof (archiveFiles_run env targz files p w) as H. cbv zeta in H.
  destruct (fault env (tick w) (OsCreate p)) as [cause|].
  { by rewrite H in Hnone. }
  destruct H as (tclose & n & c1 & c2 & c3 & _ & -> & _).
  rewrite lookup_insert_eq. eauto.
Qed.

End offline_stages.

Lemma offline_not_ftp (tr : list Event) (c : Call) (res : option error) :
  Forall offline tr -> isFtp c = true -> Called c res ∉ tr.
Proof.
  intros H Hc Hin. apply (proj1 (Forall_forall _ _) H) in Hin. cbn in Hin. congruence.
Qed.

Ltac offline_facts :=
  repeat match goal with
  | H : loadConfig ?env ?f ?w = (_, _, ?t) |- _ =>
      lazymatch goal with
      | _ : Forall offline t |- _ => fail
      | _ => let Hs := fresh "Hoff" in
             pose proof (loadConfig_offline env f w) as Hs;
             rewrite H in Hs; cbn in Hs
      end
  | H : dumpLoop ?env ?c ?dbs ?acc ?w = (_, _, ?t) |- _ =>
      lazymatch goal with
      | _ : Forall offline t |- _ => fail
      | _ => let Hs := fresh "Hoff" in
             pose proof (dumpLoop_offline env c dbs acc w) as Hs;
             rewrite H in Hs; cbn in Hs
      end
  | H : archiveFiles ?env ?tg ?files ?p ?w = (_, _, ?t) |- _ =>
      lazymatch goal with
      | _ : Forall offline t |- _ => fail
      | _ => let Hs := fresh "Hoff" in
             pose proof (archiveFiles_offline env tg files p w) as Hs;
             rewrite H in Hs; cbn in Hs
      end
  end.

(** A call to the server that a stage cannot have made. *)
Ltac absurd_ftp :=
  match goal with
  | H : False |- _ => destruct H
  | H : Called ?c _ ∈ ?t, Hs : Forall offline ?t, Hc : isFtp ?c = true |- _ =>
      by apply (offline_not_ftp _ _ _ Hs Hc) in H
  | H : Called ?c _ = Called _ _, Hc : isFtp ?c = true |- _ =>
      injection H as -> _; discriminate Hc
  | H : _ = _ |- _ => discriminate H
  end.

(** What the transfer stage of a run leaves and says: the archive file is
    on disk, and the stage talks to the configured server only. *)
Lemma main_upload_stage (env : Env) (targz : list TarEntry -> string)
  (w : World) (e : Event) :
  let r := main env targz w in
  let config := loadedConfig env w in
  (exists c res, e = Called c res /\ isFtp c = true) ->
  e ∈ traceOf r ->
  exists t w5,
    stamps (traceOf r) = [t] /\
    announceUpload (archivePathOf config t) ∈ traceOf r /\
    is_Some (fs (worldOf r) !! archivePathOf config t) /\
    fs (worldOf r) = fs w5 /\
    e ∈ traceOf (uploadToFTP env config (archivePathOf config t) w5).
Proof.
  cbv zeta. unfold loadedConfig. intros (c & res & -> & Hc).
  main_cases env targz w; offline_facts; rewrite Hload';
    cbn [traceOf worldOf valueOf fst snd];
    intros Hin; elem_split in Hin; or_cases Hin; try absurd_ftp.
  - pose proof (uploadToFTP_readonly env config' (archivePathOf config' t) w5) as Hro.
    pose proof (archiveFiles_leaves_file env targz files (archivePathOf config' t) w4)
      as Hfile.
    rewrite Hup in Hro. rewrite Harch in Hfile. cbn in Hro, Hfile.
    exists t, w5. split; [trace_facts; solve_reads|].
    split; [elem_split; auto 10|]. rewrite Hro, Hup.
    split; [by apply Hfile|done].
  - pose proof (uploadToFTP_readonly env config' (archivePathOf config' t) w5) as Hro.
    pose proof (archiveFiles_leaves_file env targz files (archivePathOf config' t) w4)
      as Hfile.
    rewrite Hup in Hro. rewrite Harch in Hfile. cbn in Hro, Hfile.
    exists t, w5. split; [trace_facts; solve_reads|].
    split; [elem_split; auto 10|]. rewrite Hro, Hup.
    split; [by apply Hfile|done].
Qed.

(** A run reaches the server only after its archive stage has ended
    well: any call to the server comes in a run that has read the clock
    once, has announced the transfer of the archive named after that
    reading, and leaves that archive on disk.  The server dialled is the
    configured host and the login uses the configured user and password. *)
Theorem ftp_only_after_archive (env : Env) (targz : list TarEntry -> string)
  (w : World) (c : Call) (res : option error) :
  let r := main env targz w in
  let config := loadedConfig env w in
  isFtp c = true ->
  Called c res ∈ traceOf r ->
  ftpEvent config (Called c res) /\
  exists t,
    stamps (traceOf r) = [t] /\
    let p := filepath.Join [BackupDirectory config;
                            "backup_" +:+ Format t +:+ ".tar.gz"] in
    announceUpload p ∈ traceOf r /\
    is_Some (fs (worldOf r) !! p).
Proof.
  cbv zeta. intros Hc Hin.
  destruct (main_upload_stage env targz w (Called c res)) as
    (t & w5 & Hst & Hup & Hsome & _ & Hin5); [eauto|done|].
  split; [|by exists t].
  pose proof (uploadToFTP_ftp env (loadedConfig env w)
                (archivePathOf (loadedConfig env w) t) w5) as Hftp.
  by apply (proj1 (Forall_forall _ _) Hftp) in Hin5.
Qed.

(** The store command of a run puts the archive into the configured
    remote directory under its own file name: the remote path is made of
    that directory and [backup_<timestamp>.tar.gz], whatever the local
    backup directory is, the local file is the archive of the run, and
    the archive is on disk when the run ends. *)
Theorem upload_lands_in_ftp_directory (env : Env) (targz : list TarEntry -> string)
  (w : World) (remote loc : string) (res : option error) :
  let r := main env targz w in
  let config := loadedConfig env w in
  Called (FtpStor remote loc) res ∈ traceOf r ->
  exists t,
    stamps (traceOf r) = [t] /\
    loc = filepath.Join [BackupDirectory config;
                         "backup_" +:+ Format t +:+ ".tar.gz"] /\
    remote = filepath.Join [FTPDirectory config;
                            "backup_" +:+ Format t +:+ ".tar.gz"] /\
    is_Some (fs (worldOf r) !! loc).
Proof.
  cbv zeta. intros Hin.
  destruct (main_upload_stage env targz w (Called (FtpStor remote loc) res)) as
    (t & w5 & Hst & Hup & Hsome & _ & Hin5); [by eexists _, _|done|].
  apply uploadToFTP_stor in Hin5 as (-> & -> & _).
  exists t. by rewrite Base_archivePathOf.
Qed.

(** ** What a run says at its end *)

Lemma dump_not_done (tr : list Event) : Forall dumpEvent tr -> announceDone ∉ tr.
Proof.
  intros H Hin. apply (proj1 (Forall_forall _ _) H) in Hin as [rest Heq].
  discriminate Heq.
Qed.

Ltac last_simpl :=
  repeat first [rewrite last_app_cons | rewrite app_comm_cons]; cbn [last].

Ltac absurd_done :=
  match goal with
  | H : False |- _ => destruct H
  | H : announceDone ∈ ?t, Hd : Forall dumpEvent ?t |- _ =>
      by apply (dump_not_done t Hd) in H
  | H : announceDone ∈ ?t, Hp : forall line, Printed line ∉ ?t |- _ =>
      by apply Hp in H
  | H : _ = _ |- _ => discriminate H
  end.

Ltac failed_run :=
  split; [by right|];
  split; [split; [done|];
          let Hin := fresh "Hin" in
          intros Hin; elem_split in Hin; or_cases Hin; trace_facts; absurd_done|];
  split; [split; [done|]; last_simpl; by intros [=]|];
  split; [intros _; eexists; last_simpl; done|done].

(** The exit status of a run is 0 or 1, and its last words tell which:
    [Backup completed] is printed exactly in the runs that exit with
    status 0, where it is the last thing the run does; a run that exits
    with status 1 ends with a logged line, and no other run does. *)
Theorem completed_message (env : Env) (targz : list TarEntry -> string) (w : World) :
  let r := main env targz w in
  (valueOf r = 0 \/ valueOf r = 1) /\
  (valueOf r = 0 <-> announceDone ∈ traceOf r) /\
  (valueOf r = 0 <-> last (traceOf r) = Some announceDone) /\
  (valueOf r = 1 <-> exists line, last (traceOf r) = Some (Logged line)).
Proof.
  cbv zeta.
  main_cases env targz w; cbn [valueOf traceOf fst snd]; try failed_run.
  split; [by left|].
  split; [split; [intros _; elem_split; auto 20|done]|].
  split; [split; [intros _; last_simpl; done|done]|].
  split; [done|]. intros [line Hl]. revert Hl. last_simpl. by intros [=].
Qed.

(** ** The order of the stages *)

(** A trace with one clock reading splits at it in one way only. *)
Lemma split_at_stamp (A B pre post : list Event) (t t0 : Time) :
  stamps A = [] -> stamps B = [] ->
  (A ++ Now t0 :: B = pre ++ Now t :: post)%list ->
  pre = A /\ t = t0 /\ post = B.
Proof.
  intros HA HB. revert pre.
  induction A as [|a A IH]; intros [|e pre] Heq; cbn in Heq.
  - by simplify_eq.
  - injection Heq as <- ->. exfalso. revert HB. unfold stamps.
    rewrite omap_app. cbn. by destruct (omap stampOf pre).
  - injection Heq as -> _. by discriminate HA.
  - injection Heq as <- Heq.
    assert (stamps A = []) as HA'.
    { revert HA. unfold stamps. rewrite omap_cons. by destruct (stampOf a). }
    by destruct (IH HA' pre Heq) as (-> & -> & ->).
Qed.

Lemma no_stamp_split (tr pre post : list Event) (t : Time) :
  stamps tr = [] -> tr <> (pre ++ Now t :: post)%list.
Proof.
  intros Hs ->. revert Hs. unfold stamps. rewrite omap_app. cbn.
  by destruct (omap stampOf pre).
Qed.

Lemma no_stats (P : Event -> Prop) (tr : list Event) :
  (forall e, P e -> statOf e = None) -> Forall P tr -> statted tr = [].
Proof.
  intros HP Htr. apply omap_none. eapply Forall_impl; [exact Htr|exact HP].
Qed.

Lemma silent_no_stat (e : Event) : silent e -> statOf e = None.
Proof. by destruct e as [[]| | |]. Qed.

Lemma dumpEvent_no_stat (e : Event) : dumpEvent e -> statOf e = None.
Proof. by destruct e as [[]| | |]. Qed.

(** The one clock reading of a run separates its stages.  Whatever comes
    before the reading belongs to the configuration load, the creation of
    the directory and the dump loop: the clock is not read, no file is
    looked at or copied for the archive, and the server is not reached.
    Whatever comes after it belongs to the archive and transfer stages:
    the clock is not read again and no process is started, so every dump
    has ended before the archive gets its name. *)
Theorem clock_separates_stages (env : Env) (targz : list TarEntry -> string)
  (w : World) (pre post : list Event) (reading : Time) :
  traceOf (main env targz w) = (pre ++ Now reading :: post)%list ->
  (stamps pre = [] /\ statted pre = [] /\ archivedFrom pre = [] /\
   Forall offline pre) /\
  (stamps post = [] /\ commands post = [] /\ dumpedPaths post = []).
Proof.
  main_cases env targz w; offline_facts; cbn [traceOf snd]; intros Heq.
  - exfalso. apply no_stamp_split in Heq; [done|].
    trace_facts. solve_reads.
  - exfalso. apply no_stamp_split in Heq; [done|].
    trace_facts. solve_reads.
  - rewrite app_comm_cons, app_assoc in Heq.
    pose proof (no_stats _ _ silent_no_stat Hsilent) as Hst1.
    pose proof (no_stats _ _ dumpEvent_no_stat Hdumps) as Hst3.
    pose proof (no_commands _ _ (archiveEvent_no_command _) Harchs) as Hc5.
    trace_facts.
    apply split_at_stamp in Heq as (-> & -> & ->); [| solve_reads ..].
    split; [|by repeat split; [solve_reads|commands_split; rewrite Hc5|solve_reads]].
    split; [solve_reads|]. split; [unfold statted in *; solve_reads|].
    split; [solve_reads|].
    apply Forall_app. split; [done|]. by constructor.
  - rewrite app_comm_cons, app_assoc in Heq.
    pose proof (no_stats _ _ silent_no_stat Hsilent) as Hst1.
    pose proof (no_stats _ _ dumpEvent_no_stat Hdumps) as Hst3.
    pose proof (no_commands _ _ (archiveEvent_no_command _) Harchs) as Hc5.
    pose proof (no_commands _ _ uploadEvent_no_command Huploads) as Hc6.
    trace_facts.
    apply split_at_stamp in Heq as (-> & -> & ->); [| solve_reads ..].
    split; [|by repeat split; [solve_reads|commands_split; rewrite Hc5, Hc6|solve_reads]].
    split; [solve_reads|]. split; [unfold statted in *; solve_reads|].
    split; [solve_reads|].
    apply Forall_app. split; [done|]. by constructor.
  - rewrite app_comm_cons, app_assoc in Heq.
    pose proof (no_stats _ _ silent_no_stat Hsilent) as Hst1.
    pose proof (no_stats _ _ dumpEvent_no_stat Hdumps) as Hst3.
    pose proof (no_commands _ _ (archiveEvent_no_command _) Harchs) as Hc5.
    pose proof (no_commands _ _ uploadEvent_no_command Huploads) as Hc6.
    trace_facts.
    apply split_at_stamp in Heq as (-> & -> & ->); [| solve_reads ..].
    split; [|by repeat split; [solve_reads|commands_split; rewrite Hc5, Hc6|solve_reads]].
    split; [solve_reads|]. split; [unfold statted in *; solve_reads|].
    split; [solve_reads|].
    apply Forall_app. split; [done|]. by constructor.
Qed.

(** ** The further properties on the sample installation *)

Lemma loadConfig_missing_witness :
  fs Host.bare !! "config.json" = None /\
  let r := loadConfig Sample.calm "config.json" Host.bare in
  exists e,
    valueOf r = (zeroConfig, Some e) /\
    traceOf r = [Called (OsOpen "config.json") (Some e)] /\
    fs (worldOf r) = fs Host.bare /\
    (fault Sample.calm (tick Host.bare) (OsOpen "config.json") = None ->
     e = "open " +:+ "config.json" +:+ ": no such file or directory").
Proof.
  split; [reflexivity|].
  apply (loadConfig_missing Sample.calm "config.json" Host.bare). reflexivity.
Defined.

Lemma loadConfig_closes_witness :
  fs Sample.world !! "config.json" = Some "{}" /\
  fault Sample.calm (tick Sample.world) (OsOpen "config.json") = None /\
  let r := loadConfig Sample.calm "config.json" Sample.world in
  exists n decodeError closed,
    valueOf r = (decoded Sample.calm n "{}", decodeError) /\
    traceOf r = [Called (OsOpen "config.json") None;
                 Called (JsonDecode "config.json") decodeError;
                 Called (FileClose "config.json") closed] /\
    fs (worldOf r) = fs Sample.world.
Proof.
  split; [reflexivity|]. split; [reflexivity|].
  apply (loadConfig_closes Sample.calm "config.json" Sample.world "{}");
    reflexivity.
Defined.

Lemma main_without_config_witness :
  fs Host.bare !! "config.json" = None /\
  let r := main Sample.calm Framed.targz Host.bare in
  valueOf r = 1 /\
  fs (worldOf r) = fs Host.bare /\
  exists e,
    traceOf r = [Called (OsOpen "config.json") (Some e);
                 Logged ("failed to load config: " +:+ e)].
Proof.
  split; [reflexivity|].
  apply (main_without_config Sample.calm Framed.targz Host.bare). reflexivity.
Defined.

Lemma main_deletes_nothing_witness :
  is_Some (fs Sample.world !! "config.json") /\
  is_Some (fs (worldOf (main Sample.calm Framed.targz Sample.world))
             !! "config.json").
Proof.
  assert (is_Some (fs Sample.world !! "config.json")) as H
    by (vm_compute; eexists; reflexivity).
  split; [exact H|].
  exact (main_deletes_nothing Sample.calm Framed.targz Sample.world "config.json" H).
Defined.

Lemma main_changes_only_outputs_witness :
  let r := main Sample.calm Framed.targz Sample.world in
  let config := loadedConfig Sample.calm Sample.world in
  fs (worldOf r) !! Scenario.archive <> fs Sample.world !! Scenario.archive /\
  ((exists db, db ∈ Databases config /\
               Scenario.archive =
                 filepath.Join [BackupDirectory config; db +:+ ".sql"]) \/
   (exists t, stamps (traceOf r) = [t] /\
              Scenario.archive =
                filepath.Join [BackupDirectory config;
                               "backup_" +:+ Format t +:+ ".tar.gz"])).
Proof.
  cbv zeta.
  assert (fs (worldOf (main Sample.calm Framed.targz Sample.world))
            !! Scenario.archive <> fs Sample.world !! Scenario.archive) as H
    by by_compute.
  split; [exact H|].
  exact (main_changes_only_outputs Sample.calm Framed.targz Sample.world
           Scenario.archive H).
Defined.

Lemma archive_not_own_input_witness :
  let r := main Sample.calm Framed.targz Sample.world in
  announceArchive Scenario.archive ∈ traceOf r /\
  (Scenario.archive ∉ dumpedPaths (traceOf r)) /\
  (Scenario.archive ∉ archivedFrom (traceOf r)) /\
  (forall config db, Scenario.archive <> backupFileOf config db).
Proof.
  cbv zeta.
  assert (announceArchive Scenario.archive ∈
          traceOf (main Sample.calm Framed.targz Sample.world)) as H by by_compute.
  split; [exact H|].
  exact (archive_not_own_input Sample.calm Framed.targz Sample.world
           Scenario.archive H).
Defined.

Lemma archiveFiles_closes_last_witness :
  fault Sample.calm (tick dumpWorld) (OsCreate "/var/backups/backup.tar.gz") = None /\
  let r := archiveFiles Sample.calm Framed.targz ["/var/backups/app.sql"]
             "/var/backups/backup.tar.gz" dumpWorld in
  exists work closing,
    traceOf r = (work ++ closing)%list /\
    closes work = [] /\
    length (closes closing) = length closing /\
    closes closing =
      (map FileClose (rev (openedFiles work)) ++
       [TarClose; GzipClose; FileClose "/var/backups/backup.tar.gz"])%list.
Proof.
  split; [reflexivity|].
  apply (archiveFiles_closes_last Sample.calm Framed.targz ["/var/backups/app.sql"]
           "/var/backups/backup.tar.gz" dumpWorld).
  reflexivity.
Defined.



Lemma stor_needs_login_witness :
  let r := uploadToFTP Sample.calm Sample.config Scenario.archive Host.stocked in
  Called (FtpStor Host.remote Scenario.archive) None ∈ traceOf r /\
  Host.remote =
    filepath.Join [FTPDirectory Sample.config; filepath.Base Scenario.archive] /\
  Scenario.archive = Scenario.archive /\
  is_Some (fs Host.stocked !! Scenario.archive) /\
  exists closed quit,
    traceOf r =
    [Called (FtpDial (FTPHost Sample.config)) None;
     Called (FtpLogin (FTPUser Sample.config) (FTPPassword Sample.config)) None;
     Called (OsOpen Scenario.archive) None;
     Called (FtpStor Host.remote Scenario.archive) None;
     Called (FileClose Scenario.archive) closed;
     Called FtpQuit quit].
Proof.
  cbv zeta.
  assert (Called (FtpStor Host.remote Scenario.archive) None ∈
          traceOf (uploadToFTP Sample.calm Sample.config Scenario.archive
                     Host.stocked)) as H by by_compute.
  split; [exact H|].
  exact (stor_needs_login Sample.calm Sample.config Scenario.archive Host.stocked
           Host.remote Scenario.archive None H).
Defined.

Lemma upload_missing_file_witness :
  fs Host.bare !! Scenario.archive = None /\
  let r := uploadToFTP Sample.calm Sample.config Scenario.archive Host.bare in
  (exists e, valueOf r = Some e) /\
  (forall remote loc res, Called (FtpStor remote loc) res ∉ traceOf r) /\
  fs (worldOf r) = fs Host.bare /\
  ((forall n c, fault Sample.calm n c = None) ->
   valueOf r =
     Some ("failed to open local file: open " +:+ Scenario.archive +:+
           ": no such file or directory") /\
   last (traceOf r) = Some (Called FtpQuit None)).
Proof.
  split; [reflexivity|].
  apply (upload_missing_file Sample.calm Sample.config Scenario.archive Host.bare).
  reflexivity.
Defined.

Lemma ftp_only_after_archive_witness :
  let r := main Sample.calm Framed.targz Sample.world in
  let config := loadedConfig Sample.calm Sample.world in
  isFtp (FtpDial "ftp.example.org:21") = true /\
  Called (FtpDial "ftp.example.org:21") None ∈ traceOf r /\
  ftpEvent config (Called (FtpDial "ftp.example.org:21") None) /\
  exists t,
    stamps (traceOf r) = [t] /\
    let p := filepath.Join [BackupDirectory config;
                            "backup_" +:+ Format t +:+ ".tar.gz"] in
    announceUpload p ∈ traceOf r /\
    is_Some (fs (worldOf r) !! p).
Proof.
  cbv zeta.
  assert (Called (FtpDial "ftp.example.org:21") None ∈
          traceOf (main Sample.calm Framed.targz Sample.world)) as H by by_compute.
  split; [reflexivity|]. split; [exact H|].
  exact (ftp_only_after_archive Sample.calm Framed.targz Sample.world
           (FtpDial "ftp.example.org:21") None eq_refl H).
Defined.

Lemma upload_lands_in_ftp_directory_witness :
  let r := main Sample.calm Framed.targz Sample.world in
  let config := loadedConfig Sample.calm Sample.world in
  Called (FtpStor Host.remote Scenario.archive) None ∈ traceOf r /\
  exists t,
    stamps (traceOf r) = [t] /\
    Scenario.archive = filepath.Join [BackupDirectory config;
                                      "backup_" +:+ Format t +:+ ".tar.gz"] /\
    Host.remote = filepath.Join [FTPDirectory config;
                                 "backup_" +:+ Format t +:+ ".tar.gz"] /\
    is_Some (fs (worldOf r) !! Scenario.archive).
Proof.
  cbv zeta.
  assert (Called (FtpStor Host.remote Scenario.archive) None ∈
          traceOf (main Sample.calm Framed.targz Sample.world)) as H by by_compute.
  split; [exact H|].
  exact (upload_lands_in_ftp_directory Sample.calm Framed.targz Sample.world
           Host.remote Scenario.archive None H).
Defined.

Lemma clock_separates_stages_witness :
  let tr := traceOf (main Sample.calm Framed.targz Sample.world) in
  let pre := take 12 tr in
  let post := drop 13 tr in
  tr = (pre ++ Now Sample.clock :: post)%list /\
  (stamps pre = [] /\ statted pre = [] /\ archivedFrom pre = [] /\
   Forall offline pre) /\
  (stamps post = [] /\ commands post = [] /\ dumpedPaths post = []).
Proof.
  cbv zeta.
  assert (traceOf (main Sample.calm Framed.targz Sample.world) =
          (take 12 (traceOf (main Sample.calm Framed.targz Sample.world)) ++
           Now Sample.clock ::
           drop 13 (traceOf (main Sample.calm Framed.targz Sample.world)))%list)
    as H by (vm_compute; reflexivity).
  split; [exact H|].
  exact (clock_separates_stages Sample.calm Framed.targz Sample.world _ _ _ H).
Defined.
